(** * Capacity controller of heat/engine/resources/autoscaling.py

    A shallow embedding of [CooldownMixin], [InstanceGroup.resize] and
    [AutoScalingGroup.handle_create] / [adjust], followed by the properties
    the specification states about them.

    Python values are modelled as follows: [int] is [Z] (arbitrary precision,
    [/] on ints is the floor division of Python 2), [str] is [string] compared
    byte-wise, a list is a [list], [None] is [None].  The instance being
    operated on ([self]), the outside world and a log of the calls made to
    collaborators are threaded through a state-and-exception monad. *)

From Stdlib Require Import ZArith List String Ascii Bool Lia.
From Stdlib Require Import DecimalString.
From Stdlib Require Import Sorting.Mergesort Sorting.Sorted Sorting.Permutation.
From Stdlib Require Import Orders RelationClasses.
Import ListNotations.

Local Open Scope string_scope.
Local Open Scope Z_scope.

(** ** Python built-ins used by the module *)

(** [s.split(',')]: the fields between separators; never the empty list
    (the empty string splits into one empty field). *)
Fixpoint split (sep : ascii) (s : string) : list string :=
  match s with
  | EmptyString => [EmptyString]
  | String c s' =>
      if Ascii.eqb c sep then EmptyString :: split sep s'
      else match split sep s' with
           | [] => [String c EmptyString]
           | field :: fields => String c field :: fields
           end
  end.

(** [','.join(l)] *)
Definition join (sep : string) (l : list string) : string :=
  String.concat sep l.

(** The order [sorted] uses on [str]: lexicographic on the characters. *)
Module StringOrder <: TotalLeBool.
Definition t := string.
Definition leb : t -> t -> bool := String.leb.
Definition leb_total :
  forall a1 a2, is_true (leb a1 a2) \/ is_true (leb a2 a1) := String.leb_total.
End StringOrder.

Module StringSort := Sort StringOrder.

(** [sorted(l)] on a list of [str]. *)
Definition sorted (l : list string) : list string := StringSort.sort l.

(** ['%d' % x] *)
Definition fmt_d (x : Z) : string := NilZero.string_of_int (Z.to_int x).

(** [range(a, b)] *)
Definition range (a b : Z) : list Z :=
  map (fun i => a + Z.of_nat i) (seq 0 (Z.to_nat (b - a))).

(** [l[k:]], with Python's reading of a negative bound. *)
Definition slice_from {A} (k : Z) (l : list A) : list A :=
  if k <? 0 then skipn (Z.to_nat (Z.of_nat (List.length l) + k)) l
  else skipn (Z.to_nat k) l.

(** [l.remove(x)]: drops the first occurrence; [None] stands for the
    [ValueError] raised when there is none. *)
Fixpoint list_remove (x : string) (l : list string) : option (list string) :=
  match l with
  | [] => None
  | y :: l' =>
      if String.eqb y x then Some l'
      else option_map (cons y) (list_remove x l')
  end.

(** No character of [s] is the separator. *)
Fixpoint sep_free (sep : ascii) (s : string) : bool :=
  match s with
  | EmptyString => true
  | String c s' => negb (Ascii.eqb c sep) && sep_free sep s'
  end.

Definition comma : ascii := ","%char.

(** ** Data model *)

(** The typed configuration of an [AWS::AutoScaling::AutoScalingGroup];
    an optional property that is not given reads as [None]. *)
Record Properties := mkProperties {
  Cooldown : option Z;
  MinSize : Z;
  MaxSize : Z;
  DesiredCapacity : option Z;
  LoadBalancerNames : list string
}.

(** The fields of a group that the module reads and writes.  [resource_id]
    is the persisted membership, one comma separated string; [metadata] is a
    dict from timestamp to reason, kept as an association list (the module
    only ever stores a single entry and reads the first key). *)
Record Group := mkGroup {
  name : string;
  properties : Properties;
  resource_id : option string;
  metadata : list (Z * string)
}.

Inductive exn :=
| NestedResourceFailure (message : string)
| ValueError.

Inductive result (A : Type) :=
| Return (a : A)
| Raise (e : exn).
Arguments Return {A} a.
Arguments Raise {A} e.

(** Calls made to collaborators, in the order they are made. *)
Inductive event :=
| EvPersist (rid : string)
| EvCreate (inst : string) (error_str : option string)
| EvDestroy (inst : string) (error_str : option string)
| EvReload (lb : string) (id_list : list string).

(** The collaborators: the clock, the member instances and the load
    balancers.  [inst_create] and [inst_destroy] return the error string of
    the call ([None] on success) and the world after it. *)
Class Backend (W : Type) := mkBackend {
  utcnow : W -> Z;
  inst_create : string -> W -> option string * W;
  inst_destroy : string -> W -> option string * W;
  inst_FnGetRefId : string -> W -> string;
  lb_reload : string -> list string -> W -> W
}.

Record Sys (W : Type) := mkSys {
  self : Group;
  world : W;
  calls : list event
}.
Arguments mkSys {W} self world calls.
Arguments self {W} s.
Arguments world {W} s.
Arguments calls {W} s.

(** State and exceptions: what was written before a [raise] stays written. *)
Definition M (W A : Type) : Type := Sys W -> result A * Sys W.

Definition ret {W A} (a : A) : M W A := fun s => (Return a, s).

Definition raise {W A} (e : exn) : M W A := fun s => (Raise e, s).

Definition bind {W A B} (m : M W A) (k : A -> M W B) : M W B :=
  fun s =>
    match m s with
    | (Return a, s') => k a s'
    | (Raise e, s') => (Raise e, s')
    end.

Notation "x <- m ;; k" := (bind m (fun x => k))
  (at level 61, m at next level, right associativity).
Notation "m ;;; k" := (bind m (fun _ => k))
  (at level 61, right associativity).

Definition get_self {W} : M W Group := fun s => (Return (self s), s).

Definition set_resource_id (g : Group) (rid : string) : Group :=
  mkGroup (name g) (properties g) (Some rid) (metadata g).

Definition set_metadata (g : Group) (md : list (Z * string)) : Group :=
  mkGroup (name g) (properties g) (resource_id g) md.

(** ['%s-%d' % (self.name, x)] *)
Definition member_name (group : string) (x : Z) : string :=
  group ++ "-" ++ fmt_d x.

(** The member list as [resize] and [adjust] read it back:
    [[]] when [resource_id] is [None], else [sorted(resource_id.split(','))]. *)
Definition read_inst_list (g : Group) : list string :=
  match resource_id g with
  | Some rid => sorted (split comma rid)
  | None => []
  end.

(** Lines 33-38: [max(0, int(self.properties['Cooldown']))], and [0] when
    the property is [None] (the [TypeError] branch). *)
Definition cooldown_seconds (p : Properties) : Z :=
  match Cooldown p with
  | Some c => Z.max 0 c
  | None => 0
  end.

Section Model.
Context {W : Type} {B : Backend W}.

(** Modelled from the spec: [Resource.resource_id_set] (heat/engine/resource.py
    is not among the sources) persists the serialized membership, the single
    field that [self.resource_id] reads back. *)
Definition resource_id_set (rid : string) : M W unit :=
  fun s => (Return tt,
            mkSys (set_resource_id (self s) rid) (world s)
                  (calls s ++ [EvPersist rid])%list).

(** [inst.create()] on the instance made for [inst_name] *)
Definition create (inst_name : string) : M W (option string) :=
  fun s =>
    let (error_str, w) := inst_create inst_name (world s) in
    (Return error_str,
     mkSys (self s) w (calls s ++ [EvCreate inst_name error_str])%list).

(** [inst.destroy()] on the instance made for [inst_name] *)
Definition destroy (inst_name : string) : M W (option string) :=
  fun s =>
    let (error_str, w) := inst_destroy inst_name (world s) in
    (Return error_str,
     mkSys (self s) w (calls s ++ [EvDestroy inst_name error_str])%list).

(** [self.stack[lb].reload(id_list)] *)
Definition reload (lb : string) (id_list : list string) : M W unit :=
  fun s =>
    (Return tt,
     mkSys (self s) (lb_reload lb id_list (world s))
           (calls s ++ [EvReload lb id_list])%list).

(** The grow loop of [resize], lines 132-142. *)
Fixpoint grow (raise_on_error : bool) (xs : list Z)
    (inst_list : list string) : M W (list string) :=
  match xs with
  | [] => ret inst_list
  | x :: xs' =>
      g <- get_self ;;
      let inst_name := member_name (name g) x in
      let inst_list := (inst_list ++ [inst_name])%list in
      resource_id_set (join "," inst_list) ;;;
      error_str <- create inst_name ;;
      match error_str with
      | Some message =>
          if raise_on_error then raise (NestedResourceFailure message)
          else grow raise_on_error xs' inst_list
      | None => grow raise_on_error xs' inst_list
      end
  end.

(** The shrink loop of [resize], lines 146-150; the result of [destroy]
    is dropped. *)
Fixpoint shrink (victims : list string) (inst_list : list string)
    : M W (list string) :=
  match victims with
  | [] => ret inst_list
  | victim :: victims' =>
      destroy victim ;;;
      match list_remove victim inst_list with
      | None => raise ValueError
      | Some inst_list =>
          resource_id_set (join "," inst_list) ;;;
          shrink victims' inst_list
      end
  end.

Fixpoint reload_each (lbs : list string) (id_list : list string) : M W unit :=
  match lbs with
  | [] => ret tt
  | lb :: lbs' => reload lb id_list ;;; reload_each lbs' id_list
  end.

(** Lines 154-162: tell the load balancers about the final membership. *)
Definition notify_load_balancers (inst_list : list string) : M W unit :=
  g <- get_self ;;
  match LoadBalancerNames (properties g) with
  | [] => ret tt
  | lbs =>
      fun s =>
        reload_each lbs (map (fun n => inst_FnGetRefId n (world s)) inst_list) s
  end.

(** [InstanceGroup.resize] *)
Definition resize (new_capacity : Z) (raise_on_error : bool) : M W unit :=
  g <- get_self ;;
  let inst_list := read_inst_list g in
  let capacity := Z.of_nat (List.length inst_list) in
  if new_capacity =? capacity then ret tt
  else
    inst_list <-
      (if new_capacity >? capacity
       then grow raise_on_error (range capacity new_capacity) inst_list
       else shrink (rev (slice_from new_capacity inst_list)) inst_list) ;;
    notify_load_balancers inst_list.

(** Modelled from the spec: [timeutils.is_older_than] (heat/openstack/common
    is not among the sources).  The spec has a cooldown in progress iff
    [now - record.timestamp < window], so the record is older than the
    window once [window <= now - timestamp]. *)
Definition is_older_than (before seconds : Z) (w : W) : bool :=
  seconds <=? utcnow w - before.

(** [CooldownMixin._cooldown_inprogress] *)
Definition _cooldown_inprogress (g : Group) (w : W) : bool :=
  let cooldown := cooldown_seconds (properties g) in
  match metadata g with
  | [] => false
  | (last_adjust, _) :: _ =>
      if cooldown =? 0 then false
      else negb (is_older_than last_adjust cooldown w)
  end.

(** [CooldownMixin._cooldown_timestamp]; [timeutils.strtime()] is the
    current time. *)
Definition _cooldown_timestamp (reason : string) : M W unit :=
  fun s =>
    (Return tt,
     mkSys (set_metadata (self s) [(utcnow (world s), reason)])
           (world s) (calls s)).

(** Lines 223-229 of [adjust]. *)
Definition new_capacity_for (adjustment_type : string)
    (capacity adjustment : Z) : Z :=
  if String.eqb adjustment_type "ChangeInCapacity" then
    capacity + adjustment
  else if String.eqb adjustment_type "ExactCapacity" then
    adjustment
  else
    capacity + (capacity * adjustment / 100).

(** [AutoScalingGroup.adjust] after the cooldown check, lines 218-244. *)
Definition adjust_unthrottled (adjustment : Z) (adjustment_type : string)
    (raise_on_error : bool) : M W unit :=
  g <- get_self ;;
  let inst_list := read_inst_list g in
  let capacity := Z.of_nat (List.length inst_list) in
  let new_capacity := new_capacity_for adjustment_type capacity adjustment in
  if new_capacity >? MaxSize (properties g) then ret tt
  else if new_capacity <? MinSize (properties g) then ret tt
  else if new_capacity =? capacity then ret tt
  else
    resize new_capacity raise_on_error ;;;
    _cooldown_timestamp (adjustment_type ++ " : " ++ fmt_d adjustment).

(** [AutoScalingGroup.adjust] *)
Definition adjust (adjustment : Z) (adjustment_type : string)
    (raise_on_error : bool) : M W unit :=
  fun s =>
    if _cooldown_inprogress (self s) (world s) then (Return tt, s)
    else adjust_unthrottled adjustment adjustment_type raise_on_error s.

(** The truth value of [self.properties['DesiredCapacity']]: [None] and [0]
    are false. *)
Definition num_to_create (p : Properties) : Z :=
  match DesiredCapacity p with
  | Some d => if d =? 0 then MinSize p else d
  | None => MinSize p
  end.

(** [AutoScalingGroup.handle_create] *)
Definition handle_create : M W unit :=
  g <- get_self ;;
  adjust (num_to_create (properties g)) "ExactCapacity" true.

End Model.

(** ** A concrete world, for running the model *)

(** A clock reading and the instance names whose [create] / [destroy]
    report an error. *)
Record TestWorld := mkTestWorld {
  tw_now : Z;
  tw_create_fails : list string;
  tw_destroy_fails : list string
}.

Definition fails (inst_name : string) (l : list string) : option string :=
  if existsb (String.eqb inst_name) l then Some ("failed: " ++ inst_name)
  else None.

#[export] Instance test_backend : Backend TestWorld := {|
  utcnow := tw_now;
  inst_create n w := (fails n (tw_create_fails w), w);
  inst_destroy n w := (fails n (tw_destroy_fails w), w);
  inst_FnGetRefId n _ := n;
  lb_reload _ _ w := w
|}.

(** A freshly defined group: nothing persisted, no cooldown record. *)
Definition fresh_group (group : string) (p : Properties) : Group :=
  mkGroup group p None [].

Definition quiet_world (now : Z) : TestWorld := mkTestWorld now [] [].

Definition boot (g : Group) (w : TestWorld) : Sys TestWorld := mkSys g w [].

(** MinSize 1, MaxSize 5, nothing else configured. *)
Definition demo_properties : Properties := mkProperties None 1 5 None [].

(** A group named "g" with three recorded members. *)
Definition three_members (p : Properties) (md : list (Z * string)) : Group :=
  mkGroup "g" p (Some "g-0,g-1,g-2") md.

(** ** Vocabulary of the statements *)

(** The calls of a grow loop that starts from [inst_list] and attempts the
    indices of [steps], each paired with the error string its [create]
    returned: the set is persisted with the new name, then the member is
    created. *)
Fixpoint grow_trace (group : string) (inst_list : list string)
    (steps : list (Z * option string)) : list event :=
  match steps with
  | [] => []
  | (x, error_str) :: steps' =>
      let inst_list := (inst_list ++ [member_name group x])%list in
      EvPersist (join "," inst_list)
        :: EvCreate (member_name group x) error_str
        :: grow_trace group inst_list steps'
  end.

(** The calls of a shrink loop that ends with [kept]; [steps] lists the
    victims in the order they are destroyed, each with the error string its
    [destroy] returned. *)
Fixpoint shrink_trace (kept : list string)
    (steps : list (string * option string)) : list event :=
  match steps with
  | [] => []
  | (victim, error_str) :: steps' =>
      EvDestroy victim error_str
        :: EvPersist (join "," (kept ++ rev (map fst steps'))%list)
        :: shrink_trace kept steps'
  end.

(** [g] after the membership [inst_list] was persisted, if it was at all. *)
Definition persisted (g : Group) (inst_list : list string) (touched : bool) : Group :=
  if touched then set_resource_id g (join "," inst_list) else g.

Definition nonempty {A} (l : list A) : bool :=
  match l with [] => false | _ => true end.

Definition is_reload (e : event) : bool :=
  match e with EvReload _ _ => true | _ => false end.

(** [g'] differs from [g] in [resource_id] at most. *)
Definition same_config (g g' : Group) : Prop :=
  name g' = name g /\ properties g' = properties g /\ metadata g' = metadata g.

(** The number of leading members that [l[k:]] leaves out. *)
Definition kept_count (k : Z) (l : list string) : nat :=
  Z.to_nat (if k <? 0 then Z.of_nat (List.length l) + k else k).

(** ** The rest of the module: deletion, plain instance groups, policies *)

(** The attributes of a [ScalingPolicy] that the module reads and writes. *)
Record Policy := mkPolicy {
  policy_name : string;
  AutoScalingGroupName : string;
  ScalingAdjustment : Z;
  AdjustmentType : string;
  policy_Cooldown : option Z;
  policy_metadata : list (Z * string)
}.

(** [CooldownMixin] reads [self.properties['Cooldown']] and [self.metadata]
    and nothing else: a policy as the mixin sees it. *)
Definition mixin_self (p : Policy) : Group :=
  mkGroup (policy_name p) (mkProperties (policy_Cooldown p) 0 0 None [])
          None (policy_metadata p).

Definition set_policy_metadata (p : Policy) (md : list (Z * string)) : Policy :=
  mkPolicy (policy_name p) (AutoScalingGroupName p) (ScalingAdjustment p)
           (AdjustmentType p) (policy_Cooldown p) md.

(** A policy, the resources of its stack that are scaling groups
    ([self.stack.resources], a dict from name to resource), the world and
    the calls made so far. *)
Record Stack (W : Type) := mkStack {
  policy : Policy;
  resources : list (string * Group);
  stack_world : W;
  stack_calls : list event
}.
Arguments mkStack {W} policy resources stack_world stack_calls.
Arguments policy {W} s.
Arguments resources {W} s.
Arguments stack_world {W} s.
Arguments stack_calls {W} s.

(** [resources[key]]; [None] stands for the [KeyError]. *)
Fixpoint lookup_group (resources : list (string * Group)) (key : string)
    : option Group :=
  match resources with
  | [] => None
  | (k, g) :: resources' =>
      if String.eqb k key then Some g else lookup_group resources' key
  end.

(** The resources after the group object under [key] was mutated into [g]. *)
Fixpoint store_group (resources : list (string * Group)) (key : string)
    (g : Group) : list (string * Group) :=
  match resources with
  | [] => []
  | (k, g0) :: resources' =>
      if String.eqb k key then (k, g) :: resources'
      else (k, g0) :: store_group resources' key g
  end.

(** How [ScalingPolicy.alarm] ends: it returns, the lookup of the group
    raises [KeyError], or an exception of [adjust] passes through. *)
Inductive alarm_result :=
| AlarmReturn
| AlarmKeyError (key : string)
| AlarmRaise (e : exn).

Section Lifecycle.
Context {W : Type} {B : Backend W}.

(** [InstanceGroup.handle_create]; [Size] is [int(self.properties['Size'])],
    a property of the plain instance group's own schema. *)
Definition instance_group_handle_create (Size : Z) : M W unit :=
  resize Size true.

(** The loop of [InstanceGroup.handle_delete], lines 109-116. *)
Fixpoint destroy_each (inst_list : list string) : M W unit :=
  match inst_list with
  | [] => ret tt
  | victim :: inst_list' =>
      error_str <- destroy victim ;;
      match error_str with
      | Some message => raise (NestedResourceFailure message)
      | None => destroy_each inst_list'
      end
  end.

(** [InstanceGroup.handle_delete], inherited by [AutoScalingGroup]. *)
Definition handle_delete : M W unit :=
  g <- get_self ;;
  match resource_id g with
  | Some rid => destroy_each (split comma rid)
  | None => ret tt
  end.

(** [ScalingPolicy.alarm] *)
Definition alarm (st : Stack W) : alarm_result * Stack W :=
  let p := policy st in
  if _cooldown_inprogress (mixin_self p) (stack_world st) then (AlarmReturn, st)
  else
    match lookup_group (resources st) (AutoScalingGroupName p) with
    | None => (AlarmKeyError (AutoScalingGroupName p), st)
    | Some group =>
        match adjust (ScalingAdjustment p) (AdjustmentType p) false
                     (mkSys group (stack_world st) (stack_calls st)) with
        | (Return _, s) =>
            (AlarmReturn,
             mkStack
               (set_policy_metadata p
                  [(utcnow (world s),
                    AdjustmentType p ++ " : " ++ fmt_d (ScalingAdjustment p))])
               (store_group (resources st) (AutoScalingGroupName p) (self s))
               (world s) (calls s))
        | (Raise e, s) =>
            (AlarmRaise e,
             mkStack p
               (store_group (resources st) (AutoScalingGroupName p) (self s))
               (world s) (calls s))
        end
    end.

End Lifecycle.

(** The group records exactly the members of index [0 .. n-1], in index
    order; nothing was ever persisted when [n] is 0. *)
Definition holds_indices (g : Group) (n : Z) : Prop :=
  resource_id g =
    if n =? 0 then None
    else Some (join "," (map (member_name (name g)) (range 0 n))).

(** A policy asking for an exact capacity of 3 on the group "grp". *)
Definition demo_policy : Policy :=
  mkPolicy "pol" "grp" 3 "ExactCapacity" None [].

(** Three members persisted out of order. *)
Definition unsorted_group : Group :=
  mkGroup "g" demo_properties (Some "g-2,g-0,g-1") [].

(** MinSize 1, MaxSize 5 and two load balancers. *)
Definition balanced_properties : Properties :=
  mkProperties None 1 5 None ["lb-a"; "lb-b"].

(** * Properties *)

(** ** Strings, sorting and ranges *)

Lemma leb_trans (a b c : string) :
  String.leb a b = true -> String.leb b c = true -> String.leb a c = true.
Proof.
  revert b c. unfold String.leb.
  induction a as [|x a IH]; intros [|y b] [|z c]; simpl; try congruence.
  unfold Ascii.compare.
  destruct (N.compare_spec (N_of_ascii x) (N_of_ascii y));
    destruct (N.compare_spec (N_of_ascii y) (N_of_ascii z));
    destruct (N.compare_spec (N_of_ascii x) (N_of_ascii z));
    try congruence; try lia.
  apply IH.
Qed.

#[local] Instance leb_Transitive : Transitive (fun a b => is_true (StringOrder.leb a b)).
Proof. intros a b c. apply leb_trans. Qed.

Lemma sorted_StronglySorted l :
  StronglySorted (fun a b => is_true (String.leb a b)) (sorted l).
Proof. apply StringSort.StronglySorted_sort. exact leb_Transitive. Qed.

Lemma sorted_Permutation l : Permutation l (sorted l).
Proof. apply StringSort.Permuted_sort. Qed.

Lemma sorted_length l : List.length (sorted l) = List.length l.
Proof. symmetry. apply Permutation_length, sorted_Permutation. Qed.

Lemma split_not_nil sep s : split sep s <> [].
Proof. destruct s as [|c s]; simpl; [discriminate|].
  destruct (Ascii.eqb c sep); [discriminate|]. destruct (split sep s); discriminate. Qed.

Lemma split_sep_free sep s : Forall (fun f => sep_free sep f = true) (split sep s).
Proof.
  induction s as [|c s IH]; simpl.
  - constructor; [reflexivity|constructor].
  - destruct (Ascii.eqb c sep) eqn:E.
    + constructor; [reflexivity|exact IH].
    + destruct (split sep s) as [|f fs].
      * constructor; [simpl; rewrite E; reflexivity|constructor].
      * inversion IH; subst. constructor; [simpl; rewrite E; simpl; assumption|assumption].
Qed.

Lemma split_free sep x : sep_free sep x = true -> split sep x = [x].
Proof.
  induction x as [|c x IH]; simpl; [reflexivity|].
  intros H. apply andb_true_iff in H as [Hc Hx].
  apply negb_true_iff in Hc. rewrite Hc, (IH Hx). reflexivity.
Qed.

Lemma split_app_sep sep x rest :
  sep_free sep x = true ->
  split sep (x ++ String sep rest) = x :: split sep rest.
Proof.
  induction x as [|c x IH]; simpl.
  - intros _. rewrite Ascii.eqb_refl. reflexivity.
  - intros H. apply andb_true_iff in H as [Hc Hx].
    apply negb_true_iff in Hc. rewrite Hc, (IH Hx). reflexivity.
Qed.

Lemma split_join l :
  l <> [] -> Forall (fun f => sep_free comma f = true) l ->
  split comma (join "," l) = l.
Proof.
  unfold join.
  induction l as [|x l IH]; [congruence|].
  intros _ H. inversion H as [|? ? Hx Hl]; subst.
  destruct l as [|y l].
  - simpl. apply split_free; assumption.
  - change (String.concat "," (x :: y :: l)) with (x ++ String comma (String.concat "," (y :: l))).
    rewrite split_app_sep by assumption. f_equal. apply IH; [discriminate|assumption].
Qed.

Lemma sep_free_app sep a b :
  sep_free sep (a ++ b) = sep_free sep a && sep_free sep b.
Proof. induction a as [|c a IH]; simpl; [reflexivity|]. rewrite IH. apply andb_assoc. Qed.

Lemma string_of_uint_comma_free d : sep_free comma (NilEmpty.string_of_uint d) = true.
Proof. induction d; simpl; auto. Qed.

Lemma fmt_d_comma_free x : sep_free comma (fmt_d x) = true.
Proof.
  unfold fmt_d, NilZero.string_of_int, NilZero.string_of_uint.
  destruct (Z.to_int x) as [d|d]; [destruct d|destruct d]; simpl;
   auto using string_of_uint_comma_free.
Qed.

Lemma sorted_tail_le (m : list string) v :
  StronglySorted (fun a b => is_true (String.leb a b)) (m ++ [v]) ->
  Forall (fun x => String.leb x v = true) m.
Proof.
  induction m as [|a m IH]; simpl; intros H; [constructor|].
  inversion H as [|? ? Hs Hall]; subst. constructor.
  - apply Forall_app in Hall as [_ Hv]. inversion Hv; assumption.
  - apply IH; assumption.
Qed.

Lemma all_equal_snoc (m : list string) v :
  Forall (eq v) m -> (m ++ [v] = v :: m)%list.
Proof.
  induction 1 as [|a m Ha _ IH]; simpl; [reflexivity|].
  subst a. rewrite IH. reflexivity.
Qed.

Lemma list_remove_last_sorted (m : list string) v :
  StronglySorted (fun a b => is_true (String.leb a b)) (m ++ [v]) ->
  list_remove v (m ++ [v]) = Some m.
Proof.
  induction m as [|a m IH]; simpl; intros H.
  - rewrite String.eqb_refl. reflexivity.
  - inversion H as [|? ? Hs Hall]; subst.
    destruct (String.eqb a v) eqn:E.
    + apply String.eqb_eq in E. subst a. f_equal.
      apply all_equal_snoc.
      apply Forall_app in Hall as [Hge _].
      pose proof (sorted_tail_le m v Hs) as Hle.
      rewrite Forall_forall in *. intros x Hx.
      apply String.leb_antisym; [apply Hge|apply Hle]; assumption.
    + rewrite (IH Hs). reflexivity.
Qed.

Lemma StronglySorted_prefix {A} (R : A -> A -> Prop) (a b : list A) :
  StronglySorted R (a ++ b) -> StronglySorted R a.
Proof.
  induction a as [|x a IH]; simpl; intros H; [constructor|].
  inversion H as [|? ? Hs Hall]; subst. constructor; [auto|].
  apply Forall_app in Hall. tauto.
Qed.

Lemma same_config_refl g : same_config g g.
Proof. repeat split. Qed.

Lemma same_config_persisted g il b : same_config g (persisted g il b).
Proof. destruct b; repeat split. Qed.

Section Loops.
Context {W : Type} {B : Backend W}.

Lemma grow_cons roe x xs il (s : Sys W) :
  grow roe (x :: xs) il s =
  let n := member_name (name (self s)) x in
  let il' := (il ++ [n])%list in
  let s1 := mkSys (set_resource_id (self s) (join "," il'))
                  (snd (inst_create n (world s)))
                  (calls s ++ [EvPersist (join "," il');
                               EvCreate n (fst (inst_create n (world s)))]) in
  match fst (inst_create n (world s)) with
  | Some msg =>
      if roe then (Raise (NestedResourceFailure msg), s1)
      else grow roe xs il' s1
  | None => grow roe xs il' s1
  end.
Proof.
  simpl. unfold bind, get_self, resource_id_set, create. simpl.
  destruct (inst_create (member_name (name (self s)) x) (world s)) as [err w].
  simpl. rewrite <- app_assoc. simpl.
  destruct err; [destruct roe|]; reflexivity.
Qed.

Lemma shrink_cons v vs il (s : Sys W) :
  shrink (v :: vs) il s =
  let s0 := mkSys (self s) (snd (inst_destroy v (world s)))
                  (calls s ++ [EvDestroy v (fst (inst_destroy v (world s)))]) in
  match list_remove v il with
  | None => (Raise ValueError, s0)
  | Some il' =>
      shrink vs il'
        (mkSys (set_resource_id (self s) (join "," il'))
               (snd (inst_destroy v (world s)))
               (calls s ++ [EvDestroy v (fst (inst_destroy v (world s)));
                            EvPersist (join "," il')]))
  end.
Proof.
  simpl. unfold bind, destroy, resource_id_set, raise. simpl.
  destruct (inst_destroy v (world s)) as [err w]. simpl.
  destruct (list_remove v il); [|reflexivity].
  unfold bind; simpl. rewrite <- app_assoc. reflexivity.
Qed.

Lemma grow_spec roe xs : forall il (s : Sys W) r s',
  grow roe xs il s = (r, s') ->
  exists steps,
    calls s' = (calls s ++ grow_trace (name (self s)) il steps)%list /\
    self s' = persisted (self s)
                (il ++ map (member_name (name (self s))) (map fst steps))
                (nonempty steps) /\
    match r with
    | Return l' =>
        map fst steps = xs /\
        l' = (il ++ map (member_name (name (self s))) xs)%list /\
        (roe = true -> Forall (fun st => snd st = None) steps)
    | Raise e =>
        roe = true /\
        exists pre x msg post,
          xs = (map fst pre ++ x :: post)%list /\
          steps = (pre ++ [(x, Some msg)])%list /\
          Forall (fun st => snd st = None) pre /\
          e = NestedResourceFailure msg
    end.
Proof.
  induction xs as [|x xs IH]; intros il s r s' H.
  - inversion H; subst. exists []. simpl. rewrite !app_nil_r. auto.
  - rewrite grow_cons in H. cbv zeta in H.
    set (n := member_name (name (self s)) x) in *.
    set (err := fst (inst_create n (world s))) in *.
    set (s1 := mkSys _ _ _) in H.
    assert (Hrec : forall r s', grow roe xs (il ++ [n]) s1 = (r, s') ->
      exists steps,
        calls s' = (calls s ++ grow_trace (name (self s)) il steps)%list /\
        self s' = persisted (self s)
                (il ++ map (member_name (name (self s))) (map fst steps))
                (nonempty steps) /\
        match r with
        | Return l' =>
            map fst steps = x :: xs /\
            l' = (il ++ map (member_name (name (self s))) (x :: xs))%list /\
            (roe = true -> err = None -> Forall (fun st => snd st = None) steps)
        | Raise e =>
            roe = true /\
            exists pre y msg post,
              x :: xs = (map fst pre ++ y :: post)%list /\
              steps = (pre ++ [(y, Some msg)])%list /\
              (err = None -> Forall (fun st => snd st = None) pre) /\
              e = NestedResourceFailure msg
        end).
    { intros r0 s0 H0. destruct (IH _ _ _ _ H0) as (steps & Hc & Hs & Hr).
      exists ((x, err) :: steps). simpl in Hc, Hs. simpl.
      split; [rewrite Hc, <- app_assoc; reflexivity|].
      split.
      { rewrite Hs. unfold persisted. fold n.
        destruct steps; simpl; rewrite <- ?app_assoc; simpl; try rewrite app_nil_r; reflexivity. }
      destruct r0 as [l'|e].
      - destruct Hr as (Hm & Hl & Hf). subst xs l'.
        split; [reflexivity|]. split; [rewrite <- app_assoc; reflexivity|].
        intros Hroe Herr. constructor; [exact Herr|auto].
      - destruct Hr as (Hroe & pre & y & msg & post & Hx & Hst & Hf & He).
        split; [exact Hroe|].
        exists ((x, err) :: pre), y, msg, post. subst. simpl.
        repeat split; auto. }
    destruct err as [msg|] eqn:Eerr.
    + destruct roe.
      * inversion H; subst r s'. exists [(x, Some msg)]. simpl. fold n.
        split; [reflexivity|]. split; [reflexivity|].
        split; [reflexivity|]. exists [], x, msg, xs. simpl. auto.
      * destruct (Hrec _ _ H) as (steps & Hc & Hs & Hr).
        exists steps. split; [exact Hc|]. split; [exact Hs|].
        destruct r; [|destruct Hr; discriminate].
        destruct Hr as (? & ? & ?). repeat split; auto. discriminate.
    + destruct (Hrec _ _ H) as (steps & Hc & Hs & Hr).
      exists steps. split; [exact Hc|]. split; [exact Hs|].
      destruct r.
      * destruct Hr as (? & ? & ?). repeat split; auto.
      * destruct Hr as (? & pre & y & msg & post & ? & ? & ? & ?).
        split; auto. exists pre, y, msg, post. auto.
Qed.

Lemma shrink_spec : forall vs kept (s : Sys W),
  StronglySorted (fun a b => is_true (String.leb a b)) (kept ++ vs) ->
  exists steps s',
    shrink (rev vs) (kept ++ vs) s = (Return kept, s') /\
    map fst steps = rev vs /\
    calls s' = (calls s ++ shrink_trace kept steps)%list /\
    self s' = persisted (self s) kept (nonempty vs).
Proof.
  induction vs as [|v vs IH] using rev_ind; intros kept s Hs.
  - exists [], s. simpl. rewrite !app_nil_r. auto.
  - rewrite rev_unit, shrink_cons. cbv zeta.
    rewrite app_assoc in Hs |- *.
    rewrite (list_remove_last_sorted _ _ Hs).
    apply StronglySorted_prefix in Hs.
    set (err := fst (inst_destroy v (world s))).
    set (s2 := mkSys _ _ _).
    destruct (IH kept s2 Hs) as (steps & s' & Hrun & Hm & Hc & Hself).
    exists ((v, err) :: steps), s'.
    split; [exact Hrun|]. split; [simpl; congruence|].
    split.
    + rewrite Hc. simpl. rewrite <- app_assoc. simpl.
      rewrite Hm, rev_involutive. reflexivity.
    + rewrite Hself. simpl.
      assert (Hne : nonempty (vs ++ [v]) = true) by (destruct vs; reflexivity).
      rewrite Hne. subst s2. simpl.
      destruct vs; simpl; [rewrite app_nil_r|]; reflexivity.
Qed.

Lemma reload_each_spec lbs ids : forall (s : Sys W),
  exists s' lbcalls,
    reload_each lbs ids s = (Return tt, s') /\
    self s' = self s /\
    calls s' = (calls s ++ lbcalls)%list /\
    forallb is_reload lbcalls = true.
Proof.
  induction lbs as [|lb lbs IH]; intros s.
  - exists s, []. simpl. rewrite app_nil_r. auto.
  - simpl. unfold bind, reload. simpl.
    destruct (IH (mkSys (self s) (lb_reload lb ids (world s))
                        (calls s ++ [EvReload lb ids])))
      as (s' & lbcalls & Hrun & Hself & Hc & Hall).
    exists s', (EvReload lb ids :: lbcalls).
    split; [exact Hrun|]. split; [exact Hself|].
    split; [rewrite Hc; simpl; rewrite <- app_assoc; reflexivity|exact Hall].
Qed.

Lemma notify_spec il (s : Sys W) :
  exists s' lbcalls,
    notify_load_balancers il s = (Return tt, s') /\
    self s' = self s /\
    calls s' = (calls s ++ lbcalls)%list /\
    forallb is_reload lbcalls = true.
Proof.
  unfold notify_load_balancers, bind, get_self. cbv beta iota.
  destruct (LoadBalancerNames (properties (self s))) as [|lb lbs].
  - exists s, []. simpl. rewrite app_nil_r. auto.
  - apply reload_each_spec.
Qed.

Lemma resize_unfold k roe (s : Sys W) :
  resize k roe s =
  let l := read_inst_list (self s) in
  let c := Z.of_nat (List.length l) in
  if k =? c then (Return tt, s)
  else
    match (if k >? c then grow roe (range c k) l s
           else shrink (rev (slice_from k l)) l s) with
    | (Return il, s1) => notify_load_balancers il s1
    | (Raise e, s1) => (Raise e, s1)
    end.
Proof.
  unfold resize, bind, get_self. simpl.
  destruct (k =? _); [reflexivity|].
  destruct (k >? _); reflexivity.
Qed.

Lemma read_inst_list_sorted g :
  StronglySorted (fun a b => is_true (String.leb a b)) (read_inst_list g).
Proof.
  unfold read_inst_list. destruct (resource_id g); [|constructor].
  apply sorted_StronglySorted.
Qed.

Lemma slice_from_skipn (k : Z) (l : list string) :
  slice_from k l = skipn (kept_count k l) l.
Proof. unfold slice_from, kept_count. destruct (k <? 0); reflexivity. Qed.

(** Shrinking always succeeds and keeps a prefix of the sorted list. *)
Lemma resize_shrink k roe (s : Sys W) :
  k < Z.of_nat (List.length (read_inst_list (self s))) ->
  exists steps lbcalls s',
    resize k roe s = (Return tt, s') /\
    map fst steps = rev (slice_from k (read_inst_list (self s))) /\
    self s' = persisted (self s)
                (firstn (kept_count k (read_inst_list (self s)))
                        (read_inst_list (self s)))
                (nonempty (slice_from k (read_inst_list (self s)))) /\
    calls s' =
      (calls s
       ++ shrink_trace (firstn (kept_count k (read_inst_list (self s)))
                               (read_inst_list (self s))) steps
       ++ lbcalls)%list /\
    forallb is_reload lbcalls = true.
Proof.
  intros Hk. rewrite resize_unfold. cbv zeta.
  set (l := read_inst_list (self s)) in *.
  destruct (k =? Z.of_nat (List.length l)) eqn:E1; [lia|].
  destruct (k >? Z.of_nat (List.length l)) eqn:E2; [lia|].
  rewrite slice_from_skipn.
  set (n := kept_count k l).
  pose proof (read_inst_list_sorted (self s)) as Hs. fold l in Hs.
  rewrite <- (firstn_skipn n l) in Hs.
  destruct (shrink_spec (skipn n l) (firstn n l) s Hs)
    as (steps & s1 & Hrun & Hm & Hc & Hself).
  rewrite (firstn_skipn n l) in Hrun. rewrite Hrun.
  destruct (notify_spec (firstn n l) s1) as (s' & lbcalls & Hrun' & Hself' & Hc' & Hall).
  exists steps, lbcalls, s'.
  split; [exact Hrun'|]. split; [exact Hm|].
  split.
  - rewrite Hself', Hself. reflexivity.
  - split; [rewrite Hc', Hc, <- app_assoc; reflexivity|exact Hall].
Qed.

Lemma resize_grow k roe (s : Sys W) r s' :
  Z.of_nat (List.length (read_inst_list (self s))) < k ->
  resize k roe s = (r, s') ->
  exists steps lbcalls,
    calls s' = (calls s
                ++ grow_trace (name (self s)) (read_inst_list (self s)) steps
                ++ lbcalls)%list /\
    forallb is_reload lbcalls = true /\
    self s' = persisted (self s)
                (read_inst_list (self s)
                 ++ map (member_name (name (self s))) (map fst steps))
                (nonempty steps) /\
    match r with
    | Return _ =>
        map fst steps =
          range (Z.of_nat (List.length (read_inst_list (self s)))) k /\
        (roe = true -> Forall (fun st => snd st = None) steps)
    | Raise e =>
        roe = true /\ lbcalls = [] /\
        exists pre x msg post,
          range (Z.of_nat (List.length (read_inst_list (self s)))) k
            = (map fst pre ++ x :: post)%list /\
          steps = (pre ++ [(x, Some msg)])%list /\
          Forall (fun st => snd st = None) pre /\
          e = NestedResourceFailure msg
    end.
Proof.
  intros Hk. rewrite resize_unfold. cbv zeta.
  set (l := read_inst_list (self s)) in *.
  destruct (k =? Z.of_nat (List.length l)) eqn:E1; [lia|].
  destruct (k >? Z.of_nat (List.length l)) eqn:E2; [|lia].
  destruct (grow roe (range (Z.of_nat (List.length l)) k) l s) as [r1 s1] eqn:Hg.
  destruct (grow_spec _ _ _ _ _ _ Hg) as (steps & Hc & Hself & Hr).
  destruct r1 as [il|e]; intros H.
  - destruct (notify_spec il s1) as (s2 & lbcalls & Hrun & Hself2 & Hc2 & Hall).
    rewrite Hrun in H. inversion H; subst r s'.
    exists steps, lbcalls. rewrite Hc2, Hc, Hself2, Hself, <- app_assoc.
    destruct Hr as (? & ? & ?).
    split; [reflexivity|]. split; [assumption|]. split; [reflexivity|].
    split; assumption.
  - inversion H; subst r s'. exists steps, [].
    rewrite Hc, Hself, app_nil_r.
    destruct Hr as (? & ?).
    split; [reflexivity|]. split; [reflexivity|]. split; [reflexivity|].
    split; [assumption|]. split; [reflexivity|assumption].
Qed.

Lemma resize_same_config k roe (s : Sys W) r s' :
  resize k roe s = (r, s') -> same_config (self s) (self s').
Proof.
  intros H.
  destruct (Z.lt_trichotomy k (Z.of_nat (List.length (read_inst_list (self s)))))
    as [Hlt|[Heq|Hgt]].
  - destruct (resize_shrink k roe s Hlt) as (? & ? & s1 & Hrun & _ & Hself & _).
    rewrite Hrun in H. inversion H; subst. rewrite Hself.
    apply same_config_persisted.
  - rewrite resize_unfold in H. cbv zeta in H.
    apply Z.eqb_eq in Heq. rewrite Heq in H. inversion H; subst.
    apply same_config_refl.
  - destruct (resize_grow k roe s r s' Hgt H) as (? & ? & _ & _ & Hself & _).
    rewrite Hself. apply same_config_persisted.
Qed.
End Loops.

Lemma range_length a b : List.length (range a b) = Z.to_nat (b - a).
Proof. unfold range. rewrite length_map, length_seq. reflexivity. Qed.

Lemma range_cons a b : a < b -> range a b = a :: range (a + 1) b.
Proof.
  intros H. unfold range.
  replace (Z.to_nat (b - a)) with (S (Z.to_nat (b - (a + 1)))) by lia.
  simpl. f_equal; [lia|].
  rewrite <- seq_shift, map_map. apply map_ext. intros i. lia.
Qed.

Lemma range_nil a b : b <= a -> range a b = [].
Proof. intros H. unfold range. replace (Z.to_nat (b - a)) with 0%nat by lia. reflexivity. Qed.

Lemma range_split : forall p a b x q,
  range a b = (p ++ x :: q)%list ->
  p = range a (a + Z.of_nat (List.length p)) /\
  x = a + Z.of_nat (List.length p) /\
  a + Z.of_nat (List.length p) < b.
Proof.
  induction p as [|y p IH]; intros a b x q H.
  - simpl in *. destruct (Z.lt_ge_cases a b) as [Hlt|Hge].
    + rewrite (range_cons a b Hlt) in H. inversion H; subst.
      rewrite range_nil by lia. repeat split; lia.
    + rewrite range_nil in H by lia. discriminate.
  - destruct (Z.lt_ge_cases a b) as [Hlt|Hge].
    + rewrite (range_cons a b Hlt) in H. simpl in H. inversion H as [[Hy Hrest]].
      destruct (IH _ _ _ _ Hrest) as (Hp & Hx & Hb).
      subst y.
      replace (a + Z.of_nat (List.length (a :: p)))
        with (a + 1 + Z.of_nat (List.length p)) by (simpl List.length; lia).
      split; [|split; assumption].
      rewrite (range_cons a) by lia. rewrite <- Hp. reflexivity.
    + rewrite range_nil in H by lia. discriminate.
Qed.

Lemma range_snoc a b : a <= b -> range a (b + 1) = (range a b ++ [b])%list.
Proof.
  intros H. unfold range.
  replace (Z.to_nat (b + 1 - a)) with (Z.to_nat (b - a) + 1)%nat by lia.
  rewrite seq_app, map_app. simpl. do 2 f_equal. lia.
Qed.

Lemma all_succeeded (pre : list (Z * option string)) :
  Forall (fun st => snd st = None) pre ->
  pre = map (fun x => (x, None)) (map fst pre).
Proof.
  induction 1 as [|[x e] pre He _ IH]; simpl; [reflexivity|].
  simpl in He. subst e. f_equal. exact IH.
Qed.

(** ** Reading the persisted membership back *)

Lemma read_inst_list_comma_free g :
  Forall (fun f => sep_free comma f = true) (read_inst_list g).
Proof.
  unfold read_inst_list. destruct (resource_id g) as [rid|]; [|constructor].
  eapply Permutation_Forall; [apply sorted_Permutation|apply split_sep_free].
Qed.

Lemma member_name_comma_free group x :
  sep_free comma group = true -> sep_free comma (member_name group x) = true.
Proof.
  intros H. unfold member_name. rewrite !sep_free_app, H, fmt_d_comma_free.
  reflexivity.
Qed.

Lemma read_back g il :
  il <> [] -> Forall (fun f => sep_free comma f = true) il ->
  read_inst_list (set_resource_id g (join "," il)) = sorted il.
Proof.
  intros Hne Hfree. unfold read_inst_list. simpl.
  rewrite split_join by assumption. reflexivity.
Qed.

Lemma Forall_firstn_of {A} (P : A -> Prop) n (l : list A) :
  Forall P l -> Forall P (firstn n l).
Proof.
  intros H. rewrite <- (firstn_skipn n l) in H.
  apply Forall_app in H. tauto.
Qed.

Section Claims.
Context {W : Type} {B : Backend W}.

Lemma resize_noop k roe (s : Sys W) :
  Z.of_nat (List.length (read_inst_list (self s))) = k ->
  resize k roe s = (Return tt, s).
Proof.
  intros H. rewrite resize_unfold. cbv zeta.
  apply Z.eqb_eq in H. rewrite Z.eqb_sym, H. reflexivity.
Qed.

Lemma adjust_unfold a ty roe (s : Sys W) :
  adjust a ty roe s =
  if _cooldown_inprogress (self s) (world s) then (Return tt, s)
  else
    let c := Z.of_nat (List.length (read_inst_list (self s))) in
    let nt := new_capacity_for ty c a in
    if nt >? MaxSize (properties (self s)) then (Return tt, s)
    else if nt <? MinSize (properties (self s)) then (Return tt, s)
    else if nt =? c then (Return tt, s)
    else
      match resize nt roe s with
      | (Return _, s1) =>
          (Return tt,
           mkSys (set_metadata (self s1)
                    [(utcnow (world s1), ty ++ " : " ++ fmt_d a)])
                 (world s1) (calls s1))
      | (Raise e, s1) => (Raise e, s1)
      end.
Proof.
  unfold adjust. destruct (_cooldown_inprogress _ _); [reflexivity|].
  unfold adjust_unthrottled, bind, get_self. cbv beta iota zeta.
  destruct (_ >? _); [reflexivity|].
  destruct (_ <? _); [reflexivity|].
  destruct (_ =? _); [reflexivity|].
  destruct (resize _ _ s) as [[a0|e] s1]; reflexivity.
Qed.

(** C5: when the target computed by [adjust] is above MaxSize or below
    MinSize, [adjust] returns normally and leaves the whole system as it was:
    same membership, same cooldown record, no call to any collaborator.  The
    target is dropped, not clamped to the bound. *)
Theorem adjust_out_of_bounds a ty roe (s : Sys W) :
  let c := Z.of_nat (List.length (read_inst_list (self s))) in
  let nt := new_capacity_for ty c a in
  nt > MaxSize (properties (self s)) \/ nt < MinSize (properties (self s)) ->
  adjust a ty roe s = (Return tt, s).
Proof.
  intros c nt H. rewrite adjust_unfold. cbv zeta. fold c. fold nt.
  destruct (_cooldown_inprogress _ _); [reflexivity|].
  destruct (Z.gtb_spec nt (MaxSize (properties (self s)))); [reflexivity|].
  destruct (Z.ltb_spec nt (MinSize (properties (self s)))); [reflexivity|].
  lia.
Qed.

(** C10: on the three paths of [adjust] that do not reach [resize]
    (cooldown in progress, target out of bounds, target equal to the
    capacity) nothing changes, the cooldown record included.  On the
    remaining path [resize] runs; the record is overwritten with the current
    time and the reason when [resize] returns, and is left as it was when
    [resize] raises. *)
Theorem adjust_stamps_only_after_resize a ty roe (s : Sys W) :
  let c := Z.of_nat (List.length (read_inst_list (self s))) in
  let nt := new_capacity_for ty c a in
  let skipped :=
    _cooldown_inprogress (self s) (world s) = true \/
    nt > MaxSize (properties (self s)) \/
    nt < MinSize (properties (self s)) \/
    nt = c in
  (skipped -> adjust a ty roe s = (Return tt, s)) /\
  (~ skipped ->
   match resize nt roe s with
   | (Return _, s1) =>
       adjust a ty roe s =
         (Return tt,
          mkSys (set_metadata (self s1)
                   [(utcnow (world s1), ty ++ " : " ++ fmt_d a)])
                (world s1) (calls s1))
   | (Raise e, s1) =>
       adjust a ty roe s = (Raise e, s1) /\
       metadata (self s1) = metadata (self s)
   end).
Proof.
  intros c nt skipped. unfold skipped. rewrite adjust_unfold. cbv zeta.
  fold c. fold nt. split.
  - intros H.
    destruct (_cooldown_inprogress _ _); [reflexivity|].
    destruct (Z.gtb_spec nt (MaxSize (properties (self s)))); [reflexivity|].
    destruct (Z.ltb_spec nt (MinSize (properties (self s)))); [reflexivity|].
    destruct (Z.eqb_spec nt c); [reflexivity|].
    destruct H as [H|[H|[H|H]]]; try discriminate; lia.
  - intros H.
    destruct (_cooldown_inprogress _ _); [tauto|].
    destruct (Z.gtb_spec nt (MaxSize (properties (self s)))); [lia|].
    destruct (Z.ltb_spec nt (MinSize (properties (self s)))); [lia|].
    destruct (Z.eqb_spec nt c); [tauto|].
    destruct (resize nt roe s) as [[u|e] s1] eqn:Hr; [reflexivity|].
    split; [reflexivity|].
    apply resize_same_config in Hr. destruct Hr as (_ & _ & Hm). exact Hm.
Qed.

(** C3, amended: a percentage adjustment computes
    [c + floor(c * p / 100)], the integer division rounding toward negative
    infinity.  For [p >= 0] this is the truncated quotient; for [p < 0] with
    [c * p] not a multiple of 100 it is one less than the truncated
    quotient. *)
Theorem percent_change_floors (c : nat) (p : Z) :
  let cz := Z.of_nat c in
  new_capacity_for "PercentChangeInCapacity" cz p = cz + (cz * p) / 100 /\
  (0 <= p ->
   new_capacity_for "PercentChangeInCapacity" cz p = cz + (cz * p) ÷ 100) /\
  (p < 0 -> (cz * p) mod 100 <> 0 ->
   new_capacity_for "PercentChangeInCapacity" cz p = cz + (cz * p) ÷ 100 - 1).
Proof.
  intros cz. unfold new_capacity_for. simpl.
  split; [reflexivity|]. split.
  - intros Hp. rewrite Z.quot_div_nonneg by nia. reflexivity.
  - intros Hp Hm.
    assert (Hneg : cz * p <= 0) by nia.
    rewrite <- (Z.opp_involutive (cz * p)) at 2.
    rewrite Z.quot_opp_l by lia.
    rewrite Z.quot_div_nonneg by lia.
    rewrite <- (Z.opp_involutive (cz * p)) at 1.
    rewrite Z.div_opp_l_nz; try lia.
    intros Hz. apply Hm.
    rewrite <- (Z.opp_involutive (cz * p)).
    apply Z.mod_opp_l_z; [lia|exact Hz].
Qed.

(** The group a grow leaves behind: the names up to the last index whose
    creation was attempted, which is the last index of all when it returns. *)
Lemma resize_grow_state (s : Sys W) k roe r s' :
  let g := name (self s) in
  let l := read_inst_list (self s) in
  let c := Z.of_nat (List.length l) in
  c < k ->
  resize k roe s = (r, s') ->
  exists j,
    c <= j < k /\
    self s' = set_resource_id (self s)
                (join "," (l ++ map (member_name g) (range c (j + 1)))) /\
    (forall u, r = Return u -> j = k - 1).
Proof.
  intros g l c Hk H.
  destruct (resize_grow k roe s r s' Hk H)
    as (steps & lbcalls & _ & _ & Hself & Hr).
  fold g l c in Hself, Hr.
  destruct r as [u|e].
  - destruct Hr as (Hm & _). exists (k - 1).
    replace (k - 1 + 1) with k by lia. rewrite Hm in Hself.
    assert (Hne : nonempty steps = true).
    { destruct steps; [|reflexivity]. simpl in Hm.
      rewrite (range_cons c k Hk) in Hm. discriminate. }
    rewrite Hne in Hself.
    split; [lia|]. split; [exact Hself|reflexivity].
  - destruct Hr as (_ & _ & pre & x & msg & post & Hrange & Hsteps & _ & _).
    destruct (range_split _ _ _ _ _ Hrange) as (Hpre & Hx & Hlt).
    rewrite length_map in Hpre, Hx, Hlt.
    exists x. split; [lia|]. split; [|discriminate].
    rewrite Hself, Hsteps.
    assert (Hne : forall (a : list (Z * option string)) b,
               nonempty (a ++ [b]) = true)
      by (intros [|? ?] ?; reflexivity).
    rewrite Hne. unfold persisted. rewrite map_app, Hpre, <- Hx. simpl.
    rewrite range_snoc by lia. reflexivity.
Qed.

(** The group a shrink to [k] leaves behind: the first [k] names read back. *)
Lemma resize_shrink_state (s : Sys W) k roe :
  let l := read_inst_list (self s) in
  0 <= k < Z.of_nat (List.length l) ->
  exists s',
    resize k roe s = (Return tt, s') /\
    self s' = set_resource_id (self s) (join "," (firstn (Z.to_nat k) l)).
Proof.
  intros l Hk.
  destruct (resize_shrink k roe s (proj2 Hk))
    as (_ & _ & s' & Hrun & _ & Hself & _).
  fold l in Hself. exists s'. split; [exact Hrun|].
  rewrite Hself, slice_from_skipn. unfold kept_count.
  destruct (Z.ltb_spec k 0); [lia|].
  destruct (skipn (Z.to_nat k) l) eqn:E; [|reflexivity].
  apply (f_equal (@List.length _)) in E. rewrite length_skipn in E.
  simpl in E. lia.
Qed.

(** C6: with a cooldown record stamped at [ts], while less than the window
    has elapsed [adjust] returns normally and changes nothing.  Once the
    window has elapsed the same call is not suppressed: a target out of
    bounds or equal to the capacity is dropped as usual, and any other
    target is resized to, after which the returning call has persisted the
    new membership and stamped a new cooldown record; a nested failure of a
    fail-fast grow passes through with the record left as it was. *)
Theorem adjust_cooldown (s : Sys W) a ty roe ts reason rest :
  let p := properties (self s) in
  let l := read_inst_list (self s) in
  let c := Z.of_nat (List.length l) in
  let nt := new_capacity_for ty c a in
  let il :=
    if nt >? c then (l ++ map (member_name (name (self s))) (range c nt))%list
    else firstn (Z.to_nat nt) l in
  metadata (self s) = (ts, reason) :: rest ->
  ts <= utcnow (world s) ->
  (utcnow (world s) - ts < cooldown_seconds p ->
   adjust a ty roe s = (Return tt, s)) /\
  (cooldown_seconds p <= utcnow (world s) - ts ->
   (nt > MaxSize p \/ nt < MinSize p \/ nt = c ->
    adjust a ty roe s = (Return tt, s)) /\
   (MinSize p <= nt <= MaxSize p -> nt <> c -> 0 <= nt ->
    exists r s1,
      adjust a ty roe s = (r, s1) /\
      (roe = false -> r = Return tt) /\
      match r with
      | Return _ =>
          self s1 =
            set_metadata (set_resource_id (self s) (join "," il))
              [(utcnow (world s1), ty ++ " : " ++ fmt_d a)]
      | Raise e =>
          roe = true /\ c < nt /\
          (exists message, e = NestedResourceFailure message) /\
          metadata (self s1) = metadata (self s)
      end)).
Proof.
  intros p l c nt il Hmd Hts.
  assert (Hcool : cooldown_seconds p <= utcnow (world s) - ts ->
            _cooldown_inprogress (self s) (world s) = false).
  { intros H. unfold _cooldown_inprogress, is_older_than. rewrite Hmd. fold p.
    destruct (Z.eqb_spec (cooldown_seconds p) 0); [reflexivity|].
    destruct (Z.leb_spec (cooldown_seconds p) (utcnow (world s) - ts));
      [reflexivity|lia]. }
  split.
  - intros H. unfold adjust, _cooldown_inprogress, is_older_than.
    rewrite Hmd. fold p.
    destruct (Z.eqb_spec (cooldown_seconds p) 0); [lia|].
    destruct (Z.leb_spec (cooldown_seconds p) (utcnow (world s) - ts));
      [lia|reflexivity].
  - intros Hel. specialize (Hcool Hel).
    rewrite adjust_unfold. cbv zeta. fold p l c nt. rewrite Hcool. split.
    + intros Hskip.
      destruct (Z.gtb_spec nt (MaxSize p)); [reflexivity|].
      destruct (Z.ltb_spec nt (MinSize p)); [reflexivity|].
      destruct (Z.eqb_spec nt c); [reflexivity|]. lia.
    + intros Hb Hne Hnn.
      destruct (Z.gtb_spec nt (MaxSize p)); [lia|].
      destruct (Z.ltb_spec nt (MinSize p)); [lia|].
      destruct (Z.eqb_spec nt c); [lia|].
      destruct (Z.lt_trichotomy nt c) as [Hlt|[Heq|Hgt]]; [|lia|].
      * destruct (resize_shrink_state s nt roe (conj Hnn Hlt))
          as (s1 & Hrun & Hself).
        fold l in Hself. rewrite Hrun.
        eexists _, _. split; [reflexivity|]. split; [reflexivity|].
        simpl. rewrite Hself. unfold il.
        destruct (Z.gtb_spec nt c); [lia|]. reflexivity.
      * destruct (resize nt roe s) as [r1 s1] eqn:Hr.
        destruct (resize_grow_state s nt roe r1 s1 Hgt Hr)
          as (j & Hj & Hself & Hret).
        fold l c in Hj, Hself.
        destruct r1 as [u|e].
        -- eexists _, _. split; [reflexivity|]. split; [reflexivity|].
           simpl. rewrite Hself, (Hret u eq_refl). unfold il.
           destruct (Z.gtb_spec nt c); [|lia].
           replace (nt - 1 + 1) with nt by lia. reflexivity.
        -- destruct (resize_grow nt roe s _ _ Hgt Hr)
             as (steps & lbcalls & _ & _ & _ & Hroe & _ & pre & x & msg
                 & post & _ & _ & _ & He).
           eexists _, _. split; [reflexivity|].
           split; [intros Hf; rewrite Hf in Hroe; discriminate|].
           split; [exact Hroe|]. split; [exact Hgt|].
           split; [exists msg; exact He|].
           apply resize_same_config in Hr. destruct Hr as (_ & _ & Hm).
           exact Hm.
Qed.

(** C4, amended: in a fail-fast grow from capacity [c], every new name is
    appended and persisted, and only then is the member created.  When the
    creation of index [j] fails, [resize] raises the nested failure at once:
    nothing more is called, and the persisted set holds the old members, the
    members [c .. j-1] that were created, and the member [j] whose creation
    failed. *)
Theorem resize_grow_fail_fast (s : Sys W) k r s' :
  let g := name (self s) in
  let l := read_inst_list (self s) in
  let c := Z.of_nat (List.length l) in
  c < k ->
  resize k true s = (r, s') ->
  match r with
  | Return _ =>
      self s' = set_resource_id (self s)
                  (join "," (l ++ map (member_name g) (range c k))) /\
      exists lbcalls,
        forallb is_reload lbcalls = true /\
        calls s' = (calls s
                    ++ grow_trace g l (map (fun x => (x, None)) (range c k))
                    ++ lbcalls)%list
  | Raise e =>
      exists j message,
        c <= j < k /\
        e = NestedResourceFailure message /\
        self s' = set_resource_id (self s)
                    (join "," (l ++ map (member_name g) (range c (j + 1)))) /\
        calls s' = (calls s
                    ++ grow_trace g l
                         (map (fun x => (x, None)) (range c j)
                          ++ [(j, Some message)]))%list
  end.
Proof.
  intros g l c Hk H.
  destruct (resize_grow k true s r s' Hk H)
    as (steps & lbcalls & Hc & Hall & Hself & Hr).
  fold g l c in Hc, Hself, Hr.
  destruct r as [u|e].
  - destruct Hr as (Hm & Hnone).
    rewrite (all_succeeded steps (Hnone eq_refl)), Hm in Hc.
    rewrite Hm in Hself.
    assert (Hne : nonempty steps = true).
    { destruct steps; [|reflexivity]. simpl in Hm.
      rewrite (range_cons c k Hk) in Hm. discriminate. }
    rewrite Hne in Hself. split; [exact Hself|].
    exists lbcalls. split; assumption.
  - destruct Hr as (_ & Hlb & pre & x & msg & post & Hrange & Hsteps & Hnone & He).
    destruct (range_split _ _ _ _ _ Hrange) as (Hpre & Hx & Hlt).
    rewrite length_map in Hpre, Hx, Hlt.
    set (j := c + Z.of_nat (List.length pre)) in *.
    exists j, msg. subst x.
    split; [lia|]. split; [exact He|].
    pose proof (all_succeeded pre Hnone) as Hpre2. rewrite Hpre in Hpre2.
    assert (Hfst : map fst pre = range c j) by exact Hpre.
    subst steps lbcalls. rewrite app_nil_r in Hc.
    split; [|rewrite Hc, <- Hpre2; reflexivity].
    rewrite Hself.
    assert (Hne : forall (a : list (Z * option string)) b, nonempty (a ++ [b]) = true)
      by (intros [|? ?] ?; reflexivity).
    rewrite Hne. unfold persisted.
    rewrite map_app, Hfst. simpl.
    rewrite range_snoc by lia. reflexivity.
Qed.

(** C7: a shrink to [k] returns normally whatever the [destroy] calls
    report.  Every victim, highest first, is destroyed, removed and the
    shorter set persisted; the group ends with the first [k] names. *)
Theorem resize_shrink_ignores_destroy_result (s : Sys W) k roe :
  let l := read_inst_list (self s) in
  0 <= k < Z.of_nat (List.length l) ->
  exists steps lbcalls s',
    resize k roe s = (Return tt, s') /\
    self s' = set_resource_id (self s) (join "," (firstn (Z.to_nat k) l)) /\
    map fst steps = rev (skipn (Z.to_nat k) l) /\
    calls s' = (calls s ++ shrink_trace (firstn (Z.to_nat k) l) steps
                ++ lbcalls)%list /\
    forallb is_reload lbcalls = true.
Proof.
  intros l Hk.
  destruct (resize_shrink k roe s (proj2 Hk))
    as (steps & lbcalls & s' & Hrun & Hm & Hself & Hc & Hall).
  fold l in Hm, Hself, Hc.
  assert (Hn : kept_count k l = Z.to_nat k).
  { unfold kept_count. destruct (Z.ltb_spec k 0); [lia|reflexivity]. }
  rewrite slice_from_skipn, Hn in *.
  exists steps, lbcalls, s'.
  split; [exact Hrun|]. split.
  - rewrite Hself.
    destruct (skipn (Z.to_nat k) l) eqn:E; [|reflexivity].
    apply (f_equal (@List.length _)) in E. rewrite length_skipn in E.
    simpl in E. lia.
  - split; [exact Hm|]. split; assumption.
Qed.

(** C8: after a [resize k] that returned, a second [resize k] returns and
    leaves the group, and so the recorded membership, exactly as the first
    call left it; for [k > 0] it makes no call at all. *)
Theorem resize_idempotent (s : Sys W) k roe s1 :
  sep_free comma (name (self s)) = true ->
  0 <= k ->
  resize k roe s = (Return tt, s1) ->
  forall roe' (w : W) evs,
  exists s2,
    resize k roe' (mkSys (self s1) w evs) = (Return tt, s2) /\
    self s2 = self s1 /\
    (0 < k -> s2 = mkSys (self s1) w evs).
Proof.
  intros Hname Hk0 H roe' w evs.
  set (l := read_inst_list (self s)).
  assert (Hnoop : Z.of_nat (List.length (read_inst_list (self s1))) = k ->
    exists s2, resize k roe' (mkSys (self s1) w evs) = (Return tt, s2) /\
      self s2 = self s1 /\ (0 < k -> s2 = mkSys (self s1) w evs)).
  { intros Hlen. exists (mkSys (self s1) w evs).
    split; [apply resize_noop; exact Hlen|]. split; [reflexivity|auto]. }
  destruct (Z.lt_trichotomy k (Z.of_nat (List.length l))) as [Hlt|[Heq|Hgt]].
  - destruct (resize_shrink_state s k roe (conj Hk0 Hlt))
      as (s' & Hrun & Hself).
    rewrite Hrun in H. inversion H; subst s'. fold l in Hself.
    destruct (Z.eq_dec k 0) as [->|Hk].
    + (* shrunk to nothing: the empty string reads back as one empty name *)
      simpl in Hself.
      assert (Hread : read_inst_list (self s1) = [""])
        by (rewrite Hself; reflexivity).
      destruct (resize_shrink_state (mkSys (self s1) w evs) 0 roe')
        as (s2 & Hrun2 & Hself2).
      { simpl. rewrite Hread. simpl. lia. }
      exists s2. split; [exact Hrun2|]. split; [|lia].
      rewrite Hself2. simpl. rewrite Hself. reflexivity.
    + apply Hnoop. rewrite Hself, read_back.
      * rewrite sorted_length, length_firstn. lia.
      * intros E. apply (f_equal (@List.length _)) in E.
        rewrite length_firstn in E. simpl in E. lia.
      * apply Forall_firstn_of, read_inst_list_comma_free.
  - rewrite resize_noop in H by (symmetry; exact Heq).
    inversion H; subst s1. apply Hnoop. symmetry. exact Heq.
  - destruct (resize_grow k roe s _ _ Hgt H)
      as (steps & lbcalls & _ & _ & Hself & Hm & _).
    fold l in Hself, Hm.
    assert (Hne : nonempty steps = true).
    { destruct steps; [|reflexivity]. simpl in Hm.
      rewrite (range_cons _ k Hgt) in Hm. discriminate. }
    rewrite Hne, Hm in Hself. unfold persisted in Hself.
    apply Hnoop. rewrite Hself, read_back.
    + rewrite sorted_length, length_app, length_map, range_length. lia.
    + rewrite (range_cons _ k Hgt). destruct l; discriminate.
    + apply Forall_app. split; [apply read_inst_list_comma_free|].
      apply Forall_forall. intros f Hf. apply in_map_iff in Hf as (x & <- & _).
      apply member_name_comma_free. exact Hname.
Qed.

(** C9, amended: [handle_create] adjusts to DesiredCapacity when it is
    configured and not zero, and to MinSize when it is absent or zero.  A
    fresh group with MinSize 1, MaxSize 5 and no DesiredCapacity records the
    single member of index 0. *)
Theorem handle_create_initial_target (s : Sys W) :
  let p := properties (self s) in
  (forall d, DesiredCapacity p = Some d -> d <> 0 ->
     handle_create s = adjust d "ExactCapacity" true s) /\
  (DesiredCapacity p = None \/ DesiredCapacity p = Some 0 ->
     handle_create s = adjust (MinSize p) "ExactCapacity" true s) /\
  (self s = fresh_group (name (self s)) p ->
   MinSize p = 1 -> MaxSize p = 5 -> DesiredCapacity p = None ->
   exists r s',
     handle_create s = (r, s') /\
     resource_id (self s') = Some (member_name (name (self s)) 0) /\
     (fst (inst_create (member_name (name (self s)) 0) (world s)) = None ->
      r = Return tt) /\
     (sep_free comma (name (self s)) = true ->
      read_inst_list (self s') = [member_name (name (self s)) 0])).
Proof.
  intros p. unfold handle_create, bind, get_self, num_to_create. cbv beta iota.
  fold p. split; [|split].
  - intros d Hd Hnz. rewrite Hd.
    destruct (Z.eqb_spec d 0); [contradiction|reflexivity].
  - intros [Hd|Hd]; rewrite Hd; reflexivity.
  - intros Hfresh Hmin Hmax Hd. rewrite Hd, Hmin.
    assert (Hrid : resource_id (self s) = None) by (rewrite Hfresh; reflexivity).
    assert (Hmd : metadata (self s) = []) by (rewrite Hfresh; reflexivity).
    assert (Hl : read_inst_list (self s) = [])
      by (unfold read_inst_list; rewrite Hrid; reflexivity).
    rewrite adjust_unfold. unfold _cooldown_inprogress. rewrite Hmd, Hl.
    cbv zeta. fold p. rewrite Hmin, Hmax.
    change (new_capacity_for "ExactCapacity" (Z.of_nat (List.length (@nil string))) 1)
      with 1.
    change (1 >? 5) with false. change (1 <? 1) with false.
    change (1 =? Z.of_nat (List.length (@nil string))) with false. cbv iota.
    destruct (resize 1 true s) as [r1 s1] eqn:Hr.
    pose proof (resize_grow_state s 1 true r1 s1) as Hg.
    cbv zeta in Hg. rewrite Hl in Hg.
    change (Z.of_nat (List.length (@nil string))) with 0 in Hg.
    destruct (Hg ltac:(lia) Hr) as (j & Hj & Hself & _).
    assert (j = 0) by lia. subst j.
    set (n0 := member_name (name (self s)) 0) in *.
    change (join "," ([] ++ map (member_name (name (self s))) (range 0 (0 + 1))))
      with n0 in Hself.
    assert (Hback : sep_free comma (name (self s)) = true ->
              read_inst_list (set_resource_id (self s) (join "," [n0])) = [n0]).
    { intros Hname. rewrite read_back; [reflexivity|discriminate|].
      constructor; [apply member_name_comma_free; exact Hname|constructor]. }
    change (join "," [n0]) with n0 in Hback.
    destruct r1 as [u|e].
    + eexists _, _. split; [reflexivity|]. simpl. rewrite Hself.
      split; [reflexivity|]. split; [reflexivity|]. exact Hback.
    + eexists _, _. split; [reflexivity|]. rewrite Hself.
      split; [reflexivity|]. split; [|exact Hback].
      intros Hok. exfalso.
      rewrite resize_unfold in Hr. cbv zeta in Hr. rewrite Hl in Hr.
      change (1 =? Z.of_nat (List.length (@nil string))) with false in Hr.
      change (1 >? Z.of_nat (List.length (@nil string))) with true in Hr.
      change (range (Z.of_nat (List.length (@nil string))) 1) with [0] in Hr.
      cbv iota in Hr. rewrite grow_cons in Hr. cbv zeta in Hr.
      fold n0 in Hr. rewrite Hok in Hr. simpl grow in Hr. unfold ret in Hr.
      match type of Hr with
      | context [notify_load_balancers ?il ?st] =>
          destruct (notify_spec il st) as (s2 & lb & Hn & _);
          rewrite Hn in Hr
      end.
      discriminate.
Qed.
End Claims.

(** ** The model at concrete groups *)

(** C1, at a group of eleven members: the names persisted by a grow from
    nothing to eleven are read back in the order of the strings, "g-10"
    before "g-2", which is not the order of the indices. *)
Theorem read_back_orders_names_as_strings :
  let s := snd (resize 11 false (boot (fresh_group "g" demo_properties)
                                      (quiet_world 0))) in
  resource_id (self s)
    = Some "g-0,g-1,g-2,g-3,g-4,g-5,g-6,g-7,g-8,g-9,g-10" /\
  read_inst_list (self s)
    = ["g-0"; "g-1"; "g-10"; "g-2"; "g-3"; "g-4"; "g-5"; "g-6"; "g-7";
       "g-8"; "g-9"] /\
  read_inst_list (self s) <> map (member_name "g") (range 0 11).
Proof. vm_compute. repeat split; discriminate. Qed.

(** C2, at the same group: growing to eleven and shrinking to ten destroys
    "g-9" and keeps "g-10", so the ten recorded indices are 0..8 and 10. *)
Theorem shrink_from_eleven_leaves_gap :
  let s := snd ((resize 11 false ;;; resize 10 false)
                  (boot (fresh_group "g" demo_properties) (quiet_world 0))) in
  resource_id (self s) = Some "g-0,g-1,g-10,g-2,g-3,g-4,g-5,g-6,g-7,g-8" /\
  skipn 22 (calls s)
    = [EvDestroy "g-9" None;
       EvPersist "g-0,g-1,g-10,g-2,g-3,g-4,g-5,g-6,g-7,g-8"].
Proof. vm_compute. split; reflexivity. Qed.

Lemma percent_change_truncation_fails :
  new_capacity_for "PercentChangeInCapacity" 3 (-50) = 1 /\
  3 + (3 * -50) ÷ 100 = 2.
Proof. split; reflexivity. Qed.

Lemma percent_change_floors_witness :
  new_capacity_for "PercentChangeInCapacity" 4 50 = 4 + (4 * 50) ÷ 100 /\
  new_capacity_for "PercentChangeInCapacity" 3 (-50)
    = 3 + (3 * -50) ÷ 100 - 1.
Proof.
  split.
  - apply (proj1 (proj2 (percent_change_floors 4 50))). lia.
  - apply (proj2 (proj2 (percent_change_floors 3 (-50)))).
    + lia.
    + vm_compute. discriminate.
Defined.

Lemma failed_member_is_recorded :
  let s := boot (fresh_group "g" demo_properties)
                (mkTestWorld 0 ["g-1"] []) in
  fst (resize 3 true s) = Raise (NestedResourceFailure "failed: g-1") /\
  calls (snd (resize 3 true s))
    = [EvPersist "g-0"; EvCreate "g-0" None;
       EvPersist "g-0,g-1"; EvCreate "g-1" (Some "failed: g-1")] /\
  read_inst_list (self (snd (resize 3 true s))) = ["g-0"; "g-1"].
Proof. vm_compute. repeat split; reflexivity. Qed.

Lemma resize_grow_fail_fast_witness :
  let s := boot (fresh_group "g" demo_properties)
                (mkTestWorld 0 ["g-1"] []) in
  let s' := snd (resize 3 true s) in
  exists j message,
    0 <= j < 3 /\
    NestedResourceFailure "failed: g-1" = NestedResourceFailure message /\
    self s' = set_resource_id (self s)
                (join "," ([] ++ map (member_name "g") (range 0 (j + 1)))) /\
    calls s' = ([] ++ grow_trace "g" []
                        (map (fun x => (x, None)) (range 0 j)
                         ++ [(j, Some message)]))%list.
Proof.
  intros s s'.
  apply (resize_grow_fail_fast s 3
           (Raise (NestedResourceFailure "failed: g-1")) s').
  - vm_compute. reflexivity.
  - vm_compute. reflexivity.
Defined.

Lemma adjust_out_of_bounds_witness :
  let s := boot (three_members (mkProperties None 1 4 None []) [])
                (quiet_world 0) in
  adjust 2 "ChangeInCapacity" false s = (Return tt, s).
Proof.
  intros s. apply adjust_out_of_bounds. left. vm_compute. reflexivity.
Defined.

Lemma adjust_cooldown_witness :
  let g := three_members (mkProperties (Some 60) 1 5 None [])
                         [(100, "ChangeInCapacity : 1")] in
  let early := boot g (quiet_world 130) in
  let late := boot g (quiet_world 160) in
  adjust 1 "ChangeInCapacity" false early = (Return tt, early) /\
  adjust 0 "ChangeInCapacity" false late = (Return tt, late) /\
  exists r s1,
    adjust 1 "ChangeInCapacity" false late = (r, s1) /\
    (false = false -> r = Return tt) /\
    match r with
    | Return _ =>
        self s1 =
          set_metadata
            (set_resource_id g
               (join "," (read_inst_list g
                          ++ map (member_name "g") (range 3 4))))
            [(utcnow (world s1), "ChangeInCapacity" ++ " : " ++ fmt_d 1)]
    | Raise e =>
        false = true /\ 3 < 4 /\
        (exists message, e = NestedResourceFailure message) /\
        metadata (self s1) = metadata g
    end.
Proof.
  intros g early late.
  assert (Hmd : metadata g = [(100, "ChangeInCapacity : 1")]) by reflexivity.
  assert (Hearly : 100 <= 130) by lia.
  assert (Hlate : 100 <= 160) by lia.
  assert (Hin : 130 - 100 < 60) by lia.
  assert (Hout : 60 <= 160 - 100) by lia.
  assert (Hsame : 3 > 5 \/ 3 < 1 \/ 3 = 3) by (right; right; reflexivity).
  assert (Hb : 1 <= 4 <= 5) by lia.
  assert (Hne : 4 <> 3) by lia.
  assert (Hnn : 0 <= 4) by lia.
  split; [|split].
  - exact (proj1 (adjust_cooldown early 1 "ChangeInCapacity" false 100
                    "ChangeInCapacity : 1" [] Hmd Hearly) Hin).
  - exact (proj1 (proj2 (adjust_cooldown late 0 "ChangeInCapacity" false 100
                           "ChangeInCapacity : 1" [] Hmd Hlate) Hout) Hsame).
  - exact (proj2 (proj2 (adjust_cooldown late 1 "ChangeInCapacity" false 100
                           "ChangeInCapacity : 1" [] Hmd Hlate) Hout)
             Hb Hne Hnn).
Defined.

(** The scenario of the spec: an adjustment at time 100, the same one
    suppressed at 130, applied again at 160. *)
Example cooldown_scenario :
  let g := fresh_group "g" (mkProperties (Some 60) 0 5 None []) in
  let at_ (t : Z) (s : Sys TestWorld) := mkSys (self s) (quiet_world t) [] in
  let s1 := snd (adjust 1 "ChangeInCapacity" false (boot g (quiet_world 100))) in
  let s2 := snd (adjust 1 "ChangeInCapacity" false (at_ 130 s1)) in
  let s3 := snd (adjust 1 "ChangeInCapacity" false (at_ 160 s1)) in
  resource_id (self s1) = Some "g-0" /\
  s2 = at_ 130 s1 /\
  resource_id (self s3) = Some "g-0,g-1" /\
  metadata (self s3) = [(160, "ChangeInCapacity : 1")].
Proof. vm_compute. repeat split; reflexivity. Qed.

Lemma resize_shrink_ignores_destroy_result_witness :
  let s := boot (three_members demo_properties [])
                (mkTestWorld 0 [] ["g-2"; "g-1"]) in
  exists steps lbcalls s',
    resize 1 false s = (Return tt, s') /\
    self s' = set_resource_id (self s)
                (join "," (firstn (Z.to_nat 1) (read_inst_list (self s)))) /\
    map fst steps = rev (skipn (Z.to_nat 1) (read_inst_list (self s))) /\
    calls s' = (calls s
                ++ shrink_trace (firstn (Z.to_nat 1) (read_inst_list (self s)))
                     steps
                ++ lbcalls)%list /\
    forallb is_reload lbcalls = true.
Proof.
  intros s. apply (resize_shrink_ignores_destroy_result s 1 false).
  vm_compute. split; [discriminate|reflexivity].
Defined.

(** The same shrink, run: both [destroy] calls fail, both victims go. *)
Example shrink_with_failing_destroys :
  resize 1 false (boot (three_members demo_properties [])
                       (mkTestWorld 0 [] ["g-2"; "g-1"]))
  = (Return tt,
     mkSys (mkGroup "g" demo_properties (Some "g-0") [])
           (mkTestWorld 0 [] ["g-2"; "g-1"])
           [EvDestroy "g-2" (Some "failed: g-2"); EvPersist "g-0,g-1";
            EvDestroy "g-1" (Some "failed: g-1"); EvPersist "g-0"]).
Proof. vm_compute. reflexivity. Qed.

Lemma resize_idempotent_witness :
  let s := boot (fresh_group "g" demo_properties) (quiet_world 0) in
  let s1 := snd (resize 2 false s) in
  exists s2,
    resize 2 true (mkSys (self s1) (quiet_world 7) []) = (Return tt, s2) /\
    self s2 = self s1 /\
    (0 < 2 -> s2 = mkSys (self s1) (quiet_world 7) []).
Proof.
  intros s s1.
  apply (resize_idempotent s 2 false s1).
  - reflexivity.
  - lia.
  - vm_compute. reflexivity.
Defined.

Lemma second_resize_is_not_always_idle :
  let named := boot (fresh_group "a,b" demo_properties) (quiet_world 0) in
  let emptied := snd (resize 0 false
                        (boot (three_members demo_properties [])
                              (quiet_world 0))) in
  resize 1 false named
    = (Return tt,
       mkSys (mkGroup "a,b" demo_properties (Some "a,b-0") [])
             (quiet_world 0) [EvPersist "a,b-0"; EvCreate "a,b-0" None]) /\
  resource_id (self (snd ((resize 1 false ;;; resize 1 false) named)))
    = Some "a" /\
  fst (resize 0 false (mkSys (self emptied) (quiet_world 0) []))
    = Return tt /\
  calls (snd (resize 0 false (mkSys (self emptied) (quiet_world 0) [])))
    = [EvDestroy "" None; EvPersist ""].
Proof. vm_compute. repeat split; reflexivity. Qed.

Lemma desired_capacity_zero_is_ignored :
  let s := boot (fresh_group "g" (mkProperties None 1 5 (Some 0) []))
                (quiet_world 0) in
  resource_id (self (snd (handle_create s))) = Some "g-0" /\
  resource_id (self (snd (adjust 0 "ExactCapacity" true s))) = None.
Proof. vm_compute. split; reflexivity. Qed.

Lemma handle_create_initial_target_witness :
  let s3 := boot (fresh_group "g" (mkProperties None 1 5 (Some 3) []))
                 (quiet_world 0) in
  let s := boot (fresh_group "g" demo_properties) (quiet_world 0) in
  handle_create s3 = adjust 3 "ExactCapacity" true s3 /\
  handle_create s = adjust 1 "ExactCapacity" true s /\
  exists r s',
    handle_create s = (r, s') /\
    resource_id (self s') = Some (member_name "g" 0) /\
    (fst (inst_create (member_name "g" 0) (world s)) = None -> r = Return tt) /\
    (sep_free comma "g" = true ->
     read_inst_list (self s') = [member_name "g" 0]).
Proof.
  intros s3 s. split; [|split].
  - apply (proj1 (handle_create_initial_target s3) 3); [reflexivity|lia].
  - apply (proj1 (proj2 (handle_create_initial_target s))). left. reflexivity.
  - apply (proj2 (proj2 (handle_create_initial_target s))); reflexivity.
Defined.

Lemma adjust_stamps_only_after_resize_witness :
  let s := boot (three_members demo_properties []) (quiet_world 9) in
  adjust 0 "ChangeInCapacity" false s = (Return tt, s) /\
  adjust 1 "ChangeInCapacity" false s
    = (Return tt,
       mkSys (set_metadata (self (snd (resize 4 false s)))
                [(9, "ChangeInCapacity : 1")])
             (world (snd (resize 4 false s)))
             (calls (snd (resize 4 false s)))).
Proof.
  intros s. split.
  - apply (proj1 (adjust_stamps_only_after_resize 0 "ChangeInCapacity" false s)).
    right. right. right. vm_compute. reflexivity.
  - generalize
      (proj2 (adjust_stamps_only_after_resize 1 "ChangeInCapacity" false s)).
    vm_compute. intros H. apply H.
    intros [H'|[H'|[H'|H']]]; discriminate.
Defined.

(** * Further properties of the module *)

Section LifecycleFacts.
Context {W : Type} {B : Backend W}.

Lemma destroy_each_spec : forall victims (s : Sys W) r s',
  destroy_each victims s = (r, s') ->
  self s' = self s /\
  match r with
  | Return _ =>
      calls s' = (calls s ++ map (fun v => EvDestroy v None) victims)%list
  | Raise e =>
      exists pre v message post,
        victims = (pre ++ v :: post)%list /\
        e = NestedResourceFailure message /\
        calls s' = (calls s ++ map (fun v => EvDestroy v None) pre
                    ++ [EvDestroy v (Some message)])%list
  end.
Proof.
  induction victims as [|v victims IH]; intros s r s' H.
  - inversion H; subst. simpl. rewrite app_nil_r. auto.
  - simpl in H. unfold bind, destroy in H.
    destruct (inst_destroy v (world s)) as [[msg|] w] eqn:E.
    + inversion H; subst r s'. simpl. split; [reflexivity|].
      exists [], v, msg, victims. simpl. auto.
    + destruct (IH _ _ _ H) as (Hself & Hr). simpl in Hself, Hr.
      split; [exact Hself|]. destruct r as [u|e].
      * rewrite Hr, <- app_assoc. reflexivity.
      * destruct Hr as (pre & v' & message & post & Hv & He & Hc).
        exists (v :: pre), v', message, post. subst victims. simpl.
        split; [reflexivity|]. split; [exact He|].
        rewrite Hc, <- app_assoc. reflexivity.
Qed.

Lemma reload_each_calls lbs ids : forall (s : Sys W),
  exists s',
    reload_each lbs ids s = (Return tt, s') /\
    self s' = self s /\
    calls s' = (calls s ++ map (fun lb => EvReload lb ids) lbs)%list.
Proof.
  induction lbs as [|lb lbs IH]; intros s.
  - exists s. simpl. rewrite app_nil_r. auto.
  - simpl. unfold bind, reload. simpl.
    destruct (IH (mkSys (self s) (lb_reload lb ids (world s))
                        (calls s ++ [EvReload lb ids])))
      as (s' & Hrun & Hself & Hc).
    exists s'. split; [exact Hrun|]. split; [exact Hself|].
    rewrite Hc. simpl. rewrite <- app_assoc. reflexivity.
Qed.

Lemma notify_calls il (s : Sys W) :
  exists s',
    notify_load_balancers il s = (Return tt, s') /\
    self s' = self s /\
    calls s' =
      (calls s
       ++ map (fun lb => EvReload lb
                 (map (fun n => inst_FnGetRefId n (world s)) il))
              (LoadBalancerNames (properties (self s))))%list.
Proof.
  unfold notify_load_balancers, bind, get_self. cbv beta iota.
  destruct (LoadBalancerNames (properties (self s))) as [|lb lbs].
  - exists s. simpl. rewrite app_nil_r. auto.
  - apply reload_each_calls.
Qed.

Lemma grow_world roe xs : forall il (s : Sys W) r s',
  grow roe xs il s = (r, s') ->
  exists steps,
    calls s' = (calls s ++ grow_trace (name (self s)) il steps)%list.
Proof.
  intros il s r s' H. destruct (grow_spec _ _ _ _ _ _ H) as (steps & Hc & _).
  exists steps. exact Hc.
Qed.

Lemma no_reload_in_grow_trace g il steps :
  forallb (fun e => negb (is_reload e)) (grow_trace g il steps) = true.
Proof.
  revert il. induction steps as [|[x e] steps IH]; intros il; simpl; auto.
Qed.

Lemma no_reload_in_shrink_trace kept steps :
  forallb (fun e => negb (is_reload e)) (shrink_trace kept steps) = true.
Proof.
  induction steps as [|[x e] steps IH]; simpl; auto.
Qed.

End LifecycleFacts.

(** ** Names of up to ten members sort in index order *)

Lemma compare_app_prefix (g a b : string) :
  String.compare (g ++ a) (g ++ b) = String.compare a b.
Proof.
  induction g as [|c g IH]; simpl; [reflexivity|].
  unfold Ascii.compare. rewrite N.compare_refl. exact IH.
Qed.

Lemma leb_app_prefix (g a b : string) :
  String.leb (g ++ a) (g ++ b) = String.leb a b.
Proof. unfold String.leb. rewrite compare_app_prefix. reflexivity. Qed.

Lemma sorted_permutation_unique : forall l l' : list string,
  Permutation l l' ->
  StronglySorted (fun a b => is_true (String.leb a b)) l ->
  StronglySorted (fun a b => is_true (String.leb a b)) l' ->
  l = l'.
Proof.
  induction l as [|a l IH]; intros l' Hp Hs Hs'.
  - symmetry. apply Permutation_nil. exact Hp.
  - destruct l' as [|b l'].
    + apply Permutation_sym, Permutation_nil in Hp. discriminate.
    + inversion Hs as [|? ? Hsl Ha]; subst.
      inversion Hs' as [|? ? Hsl' Hb]; subst.
      assert (Hab : a = b).
      { assert (Hina : In a (b :: l'))
          by (eapply Permutation_in; [exact Hp|left; reflexivity]).
        assert (Hinb : In b (a :: l))
          by (eapply Permutation_in; [apply Permutation_sym; exact Hp|left; reflexivity]).
        destruct Hina as [Hina|Hina]; [congruence|].
        destruct Hinb as [Hinb|Hinb]; [congruence|].
        rewrite Forall_forall in Ha, Hb.
        apply String.leb_antisym; [apply Ha|apply Hb]; assumption. }
      subst b. f_equal. apply IH; try assumption.
      eapply Permutation_cons_inv. exact Hp.
Qed.

Lemma sorted_of_sorted (l : list string) :
  StronglySorted (fun a b => is_true (String.leb a b)) l -> sorted l = l.
Proof.
  intros H. symmetry. apply sorted_permutation_unique.
  - apply sorted_Permutation.
  - exact H.
  - apply sorted_StronglySorted.
Qed.

Lemma range_app : forall n a m b,
  Z.to_nat (m - a) = n -> a <= m <= b ->
  range a b = (range a m ++ range m b)%list.
Proof.
  induction n as [|n IH]; intros a m b Hn Hm.
  - assert (m = a) by lia. subst m. rewrite (range_nil a a) by lia. reflexivity.
  - rewrite (range_cons a b) by lia. rewrite (range_cons a m) by lia.
    simpl. f_equal. apply IH; lia.
Qed.

Lemma firstn_length_app {A} (l1 l2 : list A) :
  firstn (List.length l1) (l1 ++ l2) = l1.
Proof. induction l1 as [|x l1 IH]; simpl; [reflexivity|]. rewrite IH. reflexivity. Qed.

Lemma firstn_range k n :
  0 <= k <= n -> firstn (Z.to_nat k) (range 0 n) = range 0 k.
Proof.
  intros H. rewrite (range_app (Z.to_nat k) 0 k n) by lia.
  replace (Z.to_nat k) with (List.length (range 0 k))
    by (rewrite range_length; lia).
  apply firstn_length_app.
Qed.

Lemma ten_names_sorted (g : string) :
  StronglySorted (fun a b => is_true (String.leb a b))
    (map (member_name g) (range 0 10)).
Proof.
  change (range 0 10) with [0; 1; 2; 3; 4; 5; 6; 7; 8; 9].
  unfold member_name. simpl map.
  repeat (constructor;
          [|repeat (constructor; [rewrite leb_app_prefix; reflexivity|]);
            constructor]).
  constructor.
Qed.

Lemma names_sorted (g : string) n :
  0 <= n <= 10 ->
  sorted (map (member_name g) (range 0 n)) = map (member_name g) (range 0 n).
Proof.
  intros H. apply sorted_of_sorted.
  rewrite <- (firstn_range n 10) by lia. rewrite <- firstn_map.
  pose proof (ten_names_sorted g) as Hs.
  rewrite <- (firstn_skipn (Z.to_nat n) (map (member_name g) (range 0 10))) in Hs.
  eapply StronglySorted_prefix. exact Hs.
Qed.

Section MoreFacts.
Context {W : Type} {B : Backend W}.

(** Without fail-fast, [resize] returns whatever the collaborators report. *)
Lemma resize_false_returns k (s : Sys W) :
  exists s', resize k false s = (Return tt, s').
Proof.
  destruct (Z.lt_trichotomy k (Z.of_nat (List.length (read_inst_list (self s)))))
    as [Hlt|[Heq|Hgt]].
  - destruct (resize_shrink k false s Hlt) as (steps & lbcalls & s' & Hrun & _).
    exists s'. exact Hrun.
  - exists s. apply resize_noop. symmetry. exact Heq.
  - destruct (resize k false s) as [r s'] eqn:H.
    destruct (resize_grow k false s r s' Hgt H) as (steps & lbcalls & _ & _ & _ & Hr).
    destruct r as [u|e]; [clear Hr; destruct u; exists s'; reflexivity|].
    destruct Hr as (Hroe & _). discriminate.
Qed.

Lemma adjust_false_returns a ty (s : Sys W) :
  exists s', adjust a ty false s = (Return tt, s').
Proof.
  rewrite adjust_unfold. cbv zeta.
  destruct (_cooldown_inprogress _ _); [eexists; reflexivity|].
  destruct (_ >? _); [eexists; reflexivity|].
  destruct (_ <? _); [eexists; reflexivity|].
  destruct (_ =? _); [eexists; reflexivity|].
  match goal with |- context [resize ?k false s] =>
    destruct (resize_false_returns k s) as (s1 & Hr); rewrite Hr end.
  eexists; reflexivity.
Qed.

(** The capacity read back after [resize k], for [k >= 0]. *)
Lemma resize_capacity k roe (s : Sys W) r s' :
  sep_free comma (name (self s)) = true ->
  0 <= k ->
  resize k roe s = (r, s') ->
  let c := Z.of_nat (List.length (read_inst_list (self s))) in
  let c' := Z.of_nat (List.length (read_inst_list (self s'))) in
  Z.min c k <= c' <= Z.max c k /\
  (forall u, r = Return u -> 1 <= k -> c' = k).
Proof.
  intros Hname Hk H c c'. unfold c'.
  set (l := read_inst_list (self s)) in *.
  destruct (Z.lt_trichotomy k c) as [Hlt|[Heq|Hgt]].
  - destruct (resize_shrink_state s k roe (conj Hk Hlt)) as (s1 & Hrun & Hself).
    fold l in Hself. rewrite Hrun in H. inversion H; subst r s1.
    destruct (Z.eq_dec k 0) as [->|Hnz].
    + simpl in Hself. rewrite Hself.
      change (read_inst_list (set_resource_id (self s) (join "," []))) with [""].
      simpl. split; [lia|]. intros; lia.
    + rewrite Hself, read_back.
      * rewrite sorted_length, length_firstn. fold c. split; [lia|]. intros; lia.
      * intros E. apply (f_equal (@List.length _)) in E.
        rewrite length_firstn in E. simpl in E. fold c in E. lia.
      * apply Forall_firstn_of, read_inst_list_comma_free.
  - rewrite resize_noop in H by (symmetry; exact Heq).
    inversion H; subst r s'. fold l. fold c. split; [lia|]. intros; lia.
  - destruct (resize_grow_state s k roe r s' Hgt H) as (j & Hj & Hself & Hret).
    fold l c in Hj, Hself. rewrite Hself, read_back.
    + rewrite sorted_length, length_app, length_map, range_length.
      fold c. split; [lia|]. intros u Hu _. specialize (Hret u Hu). lia.
    + rewrite (range_cons c) by lia. destruct l; discriminate.
    + apply Forall_app. split; [apply read_inst_list_comma_free|].
      apply Forall_forall. intros f Hf. apply in_map_iff in Hf as (x & <- & _).
      apply member_name_comma_free. exact Hname.
Qed.

(** X1: [handle_delete] destroys the members in the order of the persisted
    string, not of the sorted list, and never changes the group: the
    membership stays recorded even when every member is gone.  The first
    [destroy] that reports an error stops the loop with a nested failure; no
    later member is destroyed. *)
Theorem handle_delete_destroys_in_persisted_order (s : Sys W) r s' :
  handle_delete s = (r, s') ->
  let victims :=
    match resource_id (self s) with
    | Some rid => split comma rid
    | None => []
    end in
  self s' = self s /\
  match r with
  | Return _ =>
      calls s' = (calls s ++ map (fun v => EvDestroy v None) victims)%list
  | Raise e =>
      exists pre v message post,
        victims = (pre ++ v :: post)%list /\
        e = NestedResourceFailure message /\
        calls s' = (calls s ++ map (fun v => EvDestroy v None) pre
                    ++ [EvDestroy v (Some message)])%list
  end.
Proof.
  unfold handle_delete, bind, get_self. cbv beta iota.
  destruct (resource_id (self s)) as [rid|]; intros H.
  - exact (destroy_each_spec _ _ _ _ H).
  - inversion H; subst. simpl. rewrite app_nil_r. auto.
Qed.

(** X4: without [raise_on_error] a grow returns normally whatever the
    [create] calls report, having recorded every index from the capacity up
    to [k - 1]. *)
Theorem resize_grow_swallows_create_failures (s : Sys W) k :
  let g := name (self s) in
  let l := read_inst_list (self s) in
  let c := Z.of_nat (List.length l) in
  c < k ->
  exists s' steps lbcalls,
    resize k false s = (Return tt, s') /\
    self s' = set_resource_id (self s)
                (join "," (l ++ map (member_name g) (range c k))) /\
    map fst steps = range c k /\
    calls s' = (calls s ++ grow_trace g l steps ++ lbcalls)%list /\
    forallb is_reload lbcalls = true.
Proof.
  intros g l c Hk.
  destruct (resize_false_returns k s) as (s' & H).
  destruct (resize_grow k false s _ _ Hk H)
    as (steps & lbcalls & Hc & Hall & Hself & Hm & _).
  fold g l c in Hc, Hself, Hm.
  exists s', steps, lbcalls. split; [exact H|].
  assert (Hne : nonempty steps = true).
  { destruct steps; [|reflexivity]. simpl in Hm.
    rewrite (range_cons c k Hk) in Hm. discriminate. }
  rewrite Hne, Hm in Hself. auto.
Qed.

(** X5: after a [resize k] that returned, with [k >= 1] and a group name
    free of commas, the capacity read back is [k]. *)
Theorem resize_reaches_capacity k roe (s : Sys W) s' :
  sep_free comma (name (self s)) = true ->
  1 <= k ->
  resize k roe s = (Return tt, s') ->
  Z.of_nat (List.length (read_inst_list (self s'))) = k.
Proof.
  intros Hname Hk H.
  destruct (resize_capacity k roe s _ _ Hname ltac:(lia) H) as (_ & Hret).
  apply (Hret tt); [reflexivity|exact Hk].
Qed.

(** X11: [adjust] keeps the capacity within the bounds.  With a group name
    free of commas and [MinSize >= 0], a capacity within
    [MinSize .. MaxSize] is still within them after [adjust], however it
    ends. *)
Theorem adjust_keeps_bounds a ty roe (s : Sys W) r s' :
  let p := properties (self s) in
  sep_free comma (name (self s)) = true ->
  0 <= MinSize p ->
  MinSize p <= Z.of_nat (List.length (read_inst_list (self s))) <= MaxSize p ->
  adjust a ty roe s = (r, s') ->
  MinSize p <= Z.of_nat (List.length (read_inst_list (self s'))) <= MaxSize p.
Proof.
  intros p Hname Hmin Hc. rewrite adjust_unfold. cbv zeta. fold p.
  set (c := Z.of_nat (List.length (read_inst_list (self s)))) in *.
  set (nt := new_capacity_for ty c a).
  destruct (_cooldown_inprogress _ _); [intros Hadj; inversion Hadj; subst; exact Hc|].
  destruct (Z.gtb_spec nt (MaxSize p)); [intros Hadj; inversion Hadj; subst; exact Hc|].
  destruct (Z.ltb_spec nt (MinSize p)); [intros Hadj; inversion Hadj; subst; exact Hc|].
  destruct (Z.eqb_spec nt c); [intros Hadj; inversion Hadj; subst; exact Hc|].
  destruct (resize nt roe s) as [r1 s1] eqn:Hr.
  destruct (resize_capacity nt roe s r1 s1 Hname ltac:(lia) Hr) as (Hb & _).
  fold c in Hb.
  destruct r1 as [u|e]; intros Hadj; inversion Hadj; subst r s'; simpl.
  - change (read_inst_list (set_metadata (self s1) _))
      with (read_inst_list (self s1)). lia.
  - lia.
Qed.
End MoreFacts.

Section MoreFacts2.
Context {W : Type} {B : Backend W}.

(** X6: a negative target is not rejected.  On a group of capacity [c >= 1],
    [resize k] with [k < 0] returns normally after removing the last [-k]
    members of the list read back (all of them when [-k > c]). *)
Theorem resize_negative_target (s : Sys W) k roe :
  let l := read_inst_list (self s) in
  let c := Z.of_nat (List.length l) in
  k < 0 -> 1 <= c ->
  exists s',
    resize k roe s = (Return tt, s') /\
    self s' = set_resource_id (self s)
                (join "," (firstn (Z.to_nat (c + k)) l)).
Proof.
  intros l c Hk Hc.
  destruct (resize_shrink k roe s ltac:(fold l c; lia))
    as (steps & lbcalls & s' & Hrun & _ & Hself & _).
  fold l in Hself. exists s'. split; [exact Hrun|].
  rewrite Hself, slice_from_skipn. unfold kept_count.
  destruct (Z.ltb_spec k 0); [|lia]. fold c.
  destruct (skipn (Z.to_nat (c + k)) l) eqn:E; [|reflexivity].
  apply (f_equal (@List.length _)) in E. rewrite length_skipn in E.
  simpl in E. fold c in E. lia.
Qed.

(** X7: shrinking to zero persists the empty string, which reads back as
    one member with the empty name; a following [resize 1] therefore finds
    the capacity already at 1 and creates nothing. *)
Theorem resize_zero_then_one (s : Sys W) roe :
  1 <= Z.of_nat (List.length (read_inst_list (self s))) ->
  exists s1,
    resize 0 roe s = (Return tt, s1) /\
    resource_id (self s1) = Some "" /\
    read_inst_list (self s1) = [""] /\
    forall roe' (w : W) evs,
      resize 1 roe' (mkSys (self s1) w evs)
      = (Return tt, mkSys (self s1) w evs).
Proof.
  intros Hc.
  destruct (resize_shrink_state s 0 roe ltac:(lia)) as (s1 & Hrun & Hself).
  simpl in Hself. exists s1. split; [exact Hrun|].
  rewrite Hself. split; [reflexivity|]. split; [reflexivity|].
  intros roe' w evs. apply resize_noop. reflexivity.
Qed.

Lemma reload_each_result lbs ids : forall (s : Sys W),
  reload_each lbs ids s =
  (Return tt,
   mkSys (self s)
         (fold_left (fun w lb => lb_reload lb ids w) lbs (world s))
         (calls s ++ map (fun lb => EvReload lb ids) lbs)).
Proof.
  induction lbs as [|lb lbs IH]; intros s.
  - simpl. rewrite app_nil_r. destruct s; reflexivity.
  - simpl. unfold bind, reload. simpl. rewrite IH. simpl.
    rewrite <- app_assoc. reflexivity.
Qed.

Lemma notify_result il (s : Sys W) :
  let ids := map (fun n => inst_FnGetRefId n (world s)) il in
  let lbs := LoadBalancerNames (properties (self s)) in
  notify_load_balancers il s =
  (Return tt,
   mkSys (self s)
         (fold_left (fun w lb => lb_reload lb ids w) lbs (world s))
         (calls s ++ map (fun lb => EvReload lb ids) lbs)).
Proof.
  intros ids lbs. unfold notify_load_balancers, bind, get_self.
  cbv beta iota. fold lbs. destruct lbs as [|lb lbs'] eqn:E.
  - simpl. rewrite app_nil_r. destruct s; reflexivity.
  - apply reload_each_result.
Qed.

(** X8: a [resize] to the current capacity returns at once and reloads
    nothing.  Otherwise the grow or shrink loop runs first, calling no load
    balancer; when it raises, [resize] raises with it, and when it returns
    the reference ids of the final member list are read once, in the world
    the loop left, and every configured load balancer is reloaded with that
    list, once each and in the configured order. *)
Theorem resize_reloads_once_per_load_balancer k roe (s : Sys W) :
  let l := read_inst_list (self s) in
  let c := Z.of_nat (List.length l) in
  let lbs := LoadBalancerNames (properties (self s)) in
  let loop :=
    if k >? c then grow roe (range c k) l
    else shrink (rev (slice_from k l)) l in
  let s1 := snd (loop s) in
  (k = c -> resize k roe s = (Return tt, s)) /\
  (k <> c ->
   (exists loopcalls,
      forallb (fun e => negb (is_reload e)) loopcalls = true /\
      calls s1 = (calls s ++ loopcalls)%list) /\
   match fst (loop s) with
   | Raise e => resize k roe s = (Raise e, s1)
   | Return il =>
       il = (if k >? c
             then (l ++ map (member_name (name (self s))) (range c k))%list
             else firstn (kept_count k l) l) /\
       let ids := map (fun n => inst_FnGetRefId n (world s1)) il in
       resize k roe s =
       (Return tt,
        mkSys (self s1)
              (fold_left (fun w lb => lb_reload lb ids w) lbs (world s1))
              (calls s1 ++ map (fun lb => EvReload lb ids) lbs))
   end).
Proof.
  intros l c lbs loop s1. split.
  - intros ->. apply resize_noop. reflexivity.
  - intros Hne.
    assert (Hprops : properties (self s1) = properties (self s) /\
              (exists loopcalls,
                 forallb (fun e => negb (is_reload e)) loopcalls = true /\
                 calls s1 = (calls s ++ loopcalls)%list) /\
              forall il, fst (loop s) = Return il ->
                il = (if k >? c
                      then (l ++ map (member_name (name (self s))) (range c k))%list
                      else firstn (kept_count k l) l)).
    { unfold s1, loop. destruct (Z.gtb_spec k c) as [Hgt|Hle].
      - destruct (grow roe (range c k) l s) as [r1 s2] eqn:Hg.
        destruct (grow_spec _ _ _ _ _ _ Hg) as (steps & Hc & Hself & Hr).
        simpl. split; [rewrite Hself; apply same_config_persisted|].
        split.
        + exists (grow_trace (name (self s)) l steps).
          split; [apply no_reload_in_grow_trace|exact Hc].
        + intros il Hil. subst r1. destruct Hr as (_ & Hil & _). exact Hil.
      - rewrite slice_from_skipn.
        set (n := kept_count k l).
        pose proof (read_inst_list_sorted (self s)) as Hs. fold l in Hs.
        rewrite <- (firstn_skipn n l) in Hs.
        destruct (shrink_spec (skipn n l) (firstn n l) s Hs)
          as (steps & s2 & Hrun & _ & Hc & Hself).
        rewrite (firstn_skipn n l) in Hrun. rewrite Hrun. simpl.
        split; [rewrite Hself; apply same_config_persisted|].
        split.
        + exists (shrink_trace (firstn n l) steps).
          split; [apply no_reload_in_shrink_trace|exact Hc].
        + intros il Hil. inversion Hil. reflexivity. }
    destruct Hprops as (Hp & Hcalls & Hil).
    split; [exact Hcalls|].
    assert (Hres : resize k roe s =
              match loop s with
              | (Return il, s2) => notify_load_balancers il s2
              | (Raise e, s2) => (Raise e, s2)
              end).
    { rewrite resize_unfold. cbv zeta. fold l c.
      destruct (Z.eqb_spec k c); [contradiction|].
      unfold loop. destruct (k >? c); reflexivity. }
    rewrite Hres. unfold s1 in *. destruct (loop s) as [[il|e] s2]; simpl in *.
    + split; [apply Hil; reflexivity|].
      rewrite notify_result. cbv zeta. rewrite Hp. reflexivity.
    + reflexivity.
Qed.

(** X9: up to ten members the indices stay contiguous.  If the group
    records exactly the indices [0 .. n-1] with [n <= 10] and the target is
    between 1 and 10, then after [resize] it records exactly [0 .. m-1], read
    back in index order, with [m] the target when [resize] returned. *)
Theorem resize_keeps_indices_contiguous n k roe (s : Sys W) r s' :
  sep_free comma (name (self s)) = true ->
  0 <= n <= 10 -> 1 <= k <= 10 ->
  holds_indices (self s) n ->
  resize k roe s = (r, s') ->
  exists m,
    1 <= m <= 10 /\
    holds_indices (self s') m /\
    read_inst_list (self s')
      = map (member_name (name (self s))) (range 0 m) /\
    (forall u, r = Return u -> m = k).
Proof.
  intros Hname Hn Hk Hinv H. unfold holds_indices in *.
  set (g := name (self s)) in *.
  assert (Hnames : forall m, 0 <= m <= 10 ->
            Forall (fun f => sep_free comma f = true)
                   (map (member_name g) (range 0 m))).
  { intros m _. apply Forall_forall. intros f Hf.
    apply in_map_iff in Hf as (x & <- & _).
    apply member_name_comma_free. exact Hname. }
  assert (Hback : forall m g', 1 <= m <= 10 ->
            read_inst_list
              (set_resource_id g' (join "," (map (member_name g) (range 0 m))))
            = map (member_name g) (range 0 m)).
  { intros m g' Hm. rewrite read_back.
    - apply names_sorted. lia.
    - rewrite (range_cons 0 m) by lia. discriminate.
    - apply Hnames. lia. }
  assert (Hl : read_inst_list (self s) = map (member_name g) (range 0 n)).
  { destruct (Z.eqb_spec n 0) as [->|Hnz].
    - unfold read_inst_list. rewrite Hinv. reflexivity.
    - replace (self s) with (set_resource_id (self s)
        (join "," (map (member_name g) (range 0 n)))).
      + apply Hback. lia.
      + unfold set_resource_id. rewrite <- Hinv. destruct (self s); reflexivity. }
  assert (Hlen : Z.of_nat (List.length (read_inst_list (self s))) = n).
  { rewrite Hl, length_map, range_length. lia. }
  assert (Hdone : forall m, 1 <= m <= 10 ->
            self s' = set_resource_id (self s)
                        (join "," (map (member_name g) (range 0 m))) ->
            (forall u, r = Return u -> m = k) ->
            exists m,
              1 <= m <= 10 /\
              resource_id (self s') =
                (if m =? 0 then None
                 else Some (join "," (map (member_name (name (self s')))
                                          (range 0 m)))) /\
              read_inst_list (self s') = map (member_name g) (range 0 m) /\
              (forall u, r = Return u -> m = k)).
  { intros m Hm Hself Hret. exists m. split; [exact Hm|].
    rewrite Hself. split; [|split; [apply Hback; exact Hm|exact Hret]].
    destruct (Z.eqb_spec m 0); [lia|]. reflexivity. }
  destruct (Z.lt_trichotomy k n) as [Hlt|[Heq|Hgt]].
  - destruct (resize_shrink_state s k roe ltac:(rewrite Hlen; lia))
      as (s1 & Hrun & Hself).
    rewrite Hrun in H. inversion H; subst r s1.
    apply (Hdone k Hk); [|reflexivity].
    rewrite Hself, Hl, firstn_map, firstn_range by lia. reflexivity.
  - subst k. rewrite resize_noop in H by exact Hlen.
    inversion H; subst r s'. exists n. split; [lia|].
    destruct (Z.eqb_spec n 0); [lia|].
    split; [exact Hinv|]. split; [exact Hl|reflexivity].
  - destruct (resize_grow_state s k roe r s' ltac:(rewrite Hlen; exact Hgt) H)
      as (j & Hj & Hself & Hret).
    rewrite Hlen in Hj, Hself. fold g in Hself.
    apply (Hdone (j + 1)); [lia| |intros u Hu; specialize (Hret u Hu); lia].
    rewrite Hself, Hl, <- map_app.
    rewrite <- (range_app (Z.to_nat n) 0 n (j + 1)) by lia. reflexivity.
Qed.
End MoreFacts2.

Section MoreFacts3.
Context {W : Type} {B : Backend W}.

(** X12: with no cooldown record, no Cooldown property, or a Cooldown that
    is zero or negative, [adjust] is never suppressed. *)
Theorem adjust_unthrottled_without_cooldown a ty roe (s : Sys W) :
  let p := properties (self s) in
  metadata (self s) = [] \/
  Cooldown p = None \/
  (exists c, Cooldown p = Some c /\ c <= 0) ->
  adjust a ty roe s = adjust_unthrottled a ty roe s.
Proof.
  intros p H. unfold adjust, _cooldown_inprogress, cooldown_seconds. fold p.
  destruct H as [Hmd|[Hc|(c & Hc & Hle)]].
  - rewrite Hmd. reflexivity.
  - rewrite Hc. destruct (metadata (self s)) as [|[? ?] ?]; reflexivity.
  - rewrite Hc. rewrite Z.max_l by lia.
    destruct (metadata (self s)) as [|[? ?] ?]; reflexivity.
Qed.

(** X13: an [adjust] that resized leaves a single cooldown record, stamped
    with the time at its end; any further [adjust] arriving less than the
    window after that stamp changes nothing. *)
Theorem adjust_then_suppressed a ty roe (s : Sys W) s1 :
  let c := Z.of_nat (List.length (read_inst_list (self s))) in
  let nt := new_capacity_for ty c a in
  _cooldown_inprogress (self s) (world s) = false ->
  MinSize (properties (self s)) <= nt <= MaxSize (properties (self s)) ->
  nt <> c ->
  adjust a ty roe s = (Return tt, s1) ->
  metadata (self s1) = [(utcnow (world s1), ty ++ " : " ++ fmt_d a)] /\
  forall a' ty' roe' (w : W) evs,
    utcnow (world s1) <= utcnow w ->
    utcnow w - utcnow (world s1) < cooldown_seconds (properties (self s)) ->
    adjust a' ty' roe' (mkSys (self s1) w evs)
    = (Return tt, mkSys (self s1) w evs).
Proof.
  intros c nt Hcool Hb Hne. rewrite adjust_unfold. cbv zeta. fold c nt.
  rewrite Hcool.
  destruct (Z.gtb_spec nt (MaxSize (properties (self s)))); [lia|].
  destruct (Z.ltb_spec nt (MinSize (properties (self s)))); [lia|].
  destruct (Z.eqb_spec nt c); [lia|].
  destruct (resize nt roe s) as [[u|e] s2] eqn:Hr; [|discriminate].
  intros Hadj. inversion Hadj; subst s1. simpl.
  split; [reflexivity|].
  intros a' ty' roe' w evs Hle Hlt.
  apply resize_same_config in Hr. destruct Hr as (_ & Hp & _).
  unfold adjust, _cooldown_inprogress, is_older_than. simpl. rewrite Hp.
  destruct (Z.eqb_spec (cooldown_seconds (properties (self s))) 0); [lia|].
  destruct (Z.leb_spec (cooldown_seconds (properties (self s)))
                       (utcnow w - utcnow (world s2))); [lia|reflexivity].
Qed.

(** X14: a percentage that amounts to less than one member, and in
    particular any percentage on an empty group, changes nothing. *)
Theorem percent_increase_below_one_member_is_dropped a roe (s : Sys W) :
  let c := Z.of_nat (List.length (read_inst_list (self s))) in
  0 <= c * a < 100 ->
  adjust a "PercentChangeInCapacity" roe s = (Return tt, s).
Proof.
  intros c Ha. rewrite adjust_unfold. cbv zeta. fold c.
  assert (Hnt : new_capacity_for "PercentChangeInCapacity" c a = c).
  { unfold new_capacity_for. simpl. rewrite Z.div_small by lia. lia. }
  rewrite Hnt.
  destruct (_cooldown_inprogress _ _); [reflexivity|].
  destruct (_ >? _); [reflexivity|].
  destruct (_ <? _); [reflexivity|].
  rewrite Z.eqb_refl. reflexivity.
Qed.

(** X15: a negative percentage on a non-empty group always lowers the
    target by at least one member, however small it is; down to -100 the
    target stays non-negative. *)
Theorem percent_decrease_removes_a_member (c : nat) (a : Z) :
  (1 <= c)%nat -> a < 0 ->
  new_capacity_for "PercentChangeInCapacity" (Z.of_nat c) a <= Z.of_nat c - 1 /\
  (-100 <= a ->
   0 <= new_capacity_for "PercentChangeInCapacity" (Z.of_nat c) a).
Proof.
  intros Hc Ha. unfold new_capacity_for. simpl.
  pose proof (Z.div_lt_upper_bound (Z.of_nat c * a) 100 0 ltac:(lia) ltac:(nia)).
  split; [lia|]. intros Hlow.
  pose proof (Z.div_le_lower_bound (Z.of_nat c * a) 100 (- Z.of_nat c)
                ltac:(lia) ltac:(nia)).
  lia.
Qed.

(** X17: an [alarm] that reached its group returns normally and leaves the
    policy with a single cooldown record, stamped with the time at its end;
    any [alarm] of that policy arriving less than the policy's window after
    the stamp does nothing at all, whatever the stack holds then, a missing
    group included. *)
Theorem alarm_then_suppressed (st : Stack W) group res st1 :
  let p := policy st in
  _cooldown_inprogress (mixin_self p) (stack_world st) = false ->
  lookup_group (resources st) (AutoScalingGroupName p) = Some group ->
  alarm st = (res, st1) ->
  res = AlarmReturn /\
  policy_metadata (policy st1)
    = [(utcnow (stack_world st1),
        AdjustmentType p ++ " : " ++ fmt_d (ScalingAdjustment p))] /\
  forall rs (w : W) evs,
    utcnow (stack_world st1) <= utcnow w ->
    utcnow w - utcnow (stack_world st1)
      < cooldown_seconds (properties (mixin_self p)) ->
    alarm (mkStack (policy st1) rs w evs)
    = (AlarmReturn, mkStack (policy st1) rs w evs).
Proof.
  intros p Hcool Hlook. unfold alarm at 1. fold p. rewrite Hcool, Hlook.
  destruct (adjust_false_returns (ScalingAdjustment p) (AdjustmentType p)
              (mkSys group (stack_world st) (stack_calls st))) as (s1 & Hadj).
  rewrite Hadj. intros H. inversion H; subst res st1. simpl.
  split; [reflexivity|]. split; [reflexivity|].
  intros rs w evs Hle Hlt. unfold alarm. simpl.
  unfold _cooldown_inprogress, is_older_than. simpl.
  change (cooldown_seconds (properties (mixin_self p)))
    with (cooldown_seconds (mkProperties (policy_Cooldown p) 0 0 None [])) in Hlt.
  destruct (Z.eqb_spec
              (cooldown_seconds (mkProperties (policy_Cooldown p) 0 0 None [])) 0);
    [lia|].
  destruct (Z.leb_spec
              (cooldown_seconds (mkProperties (policy_Cooldown p) 0 0 None []))
              (utcnow w - utcnow (world s1))); [lia|reflexivity].
Qed.

(** X18: when the policy is not in cooldown and its group exists, [alarm]
    returns normally and stamps the policy's cooldown record, also when the
    group's [adjust] was suppressed by the group's cooldown, rejected by the
    bounds, or had nothing to change. *)
Theorem alarm_stamps_policy (st : Stack W) group :
  let p := policy st in
  let s := mkSys group (stack_world st) (stack_calls st) in
  let c := Z.of_nat (List.length (read_inst_list group)) in
  let nt := new_capacity_for (AdjustmentType p) c (ScalingAdjustment p) in
  _cooldown_inprogress (mixin_self p) (stack_world st) = false ->
  lookup_group (resources st) (AutoScalingGroupName p) = Some group ->
  exists s1,
    adjust (ScalingAdjustment p) (AdjustmentType p) false s = (Return tt, s1) /\
    alarm st =
      (AlarmReturn,
       mkStack
         (set_policy_metadata p
            [(utcnow (world s1),
              AdjustmentType p ++ " : " ++ fmt_d (ScalingAdjustment p))])
         (store_group (resources st) (AutoScalingGroupName p) (self s1))
         (world s1) (calls s1)) /\
    (_cooldown_inprogress group (stack_world st) = true \/
     nt > MaxSize (properties group) \/
     nt < MinSize (properties group) \/
     nt = c ->
     s1 = s).
Proof.
  intros p s c nt Hcool Hlook.
  destruct (adjust_false_returns (ScalingAdjustment p) (AdjustmentType p) s)
    as (s1 & Hadj).
  exists s1. split; [exact Hadj|]. split.
  - unfold alarm. fold p. rewrite Hcool, Hlook. fold s. rewrite Hadj.
    reflexivity.
  - intros Hskip. rewrite adjust_unfold in Hadj. cbv zeta in Hadj.
    change (self s) with group in Hadj. change (world s) with (stack_world st) in Hadj.
    fold c nt in Hadj.
    destruct (_cooldown_inprogress group (stack_world st)); [congruence|].
    destruct (Z.gtb_spec nt (MaxSize (properties group))); [congruence|].
    destruct (Z.ltb_spec nt (MinSize (properties group))); [congruence|].
    destruct (Z.eqb_spec nt c); [congruence|].
    destruct Hskip as [Hs|[Hs|[Hs|Hs]]]; try discriminate; lia.
Qed.

(** X3: [InstanceGroup.handle_create] on a group with nothing persisted and
    [Size >= 1] records the indices [0 .. m-1], with [m = Size] when it
    returns; when it raises, the exception is a nested failure and
    [m <= Size]. *)
Theorem instance_group_create_records_prefix Size (s : Sys W) r s' :
  resource_id (self s) = None ->
  1 <= Size ->
  instance_group_handle_create Size s = (r, s') ->
  exists m,
    1 <= m <= Size /\
    resource_id (self s')
      = Some (join "," (map (member_name (name (self s))) (range 0 m))) /\
    (forall u, r = Return u -> m = Size) /\
    (forall e, r = Raise e -> exists message, e = NestedResourceFailure message).
Proof.
  intros Hrid Hsize H. unfold instance_group_handle_create in H.
  assert (Hl : read_inst_list (self s) = [])
    by (unfold read_inst_list; rewrite Hrid; reflexivity).
  pose proof (resize_grow_state s Size true r s') as Hg.
  cbv zeta in Hg. rewrite Hl in Hg.
  change (Z.of_nat (List.length (@nil string))) with 0 in Hg.
  destruct (Hg ltac:(lia) H) as (j & Hj & Hself & Hret).
  exists (j + 1). split; [lia|]. rewrite Hself. split; [reflexivity|].
  split; [intros u Hu; specialize (Hret u Hu); lia|].
  intros e He. subst r.
  destruct (resize_grow Size true s _ _ ltac:(rewrite Hl; simpl; lia) H)
    as (steps & lbcalls & _ & _ & _ & _ & _ & pre & x & msg & post & _ & _ & _ & Hmsg).
  exists msg. exact Hmsg.
Qed.

Lemma handle_delete_persisted (s : Sys W) rid :
  resource_id (self s) = Some rid ->
  handle_delete s = destroy_each (split comma rid) s.
Proof.
  intros H. unfold handle_delete, bind, get_self. cbv beta iota.
  rewrite H. reflexivity.
Qed.

(** X2: whatever a grow recorded is what [handle_delete] destroys.  The
    grow calls [create] for a run of indices starting at the capacity, all
    of them when it returns, and up to the first failure when it raises;
    the names recorded are the members read at the start followed by the
    names of exactly those indices, the failed one included, and a
    [handle_delete] that returns has destroyed exactly these, in this
    order. *)
Theorem handle_delete_after_grow k roe (s : Sys W) r s1 :
  let g := name (self s) in
  let l := read_inst_list (self s) in
  let c := Z.of_nat (List.length l) in
  sep_free comma g = true ->
  c < k ->
  resize k roe s = (r, s1) ->
  forall (w : W) evs s2,
    handle_delete (mkSys (self s1) w evs) = (Return tt, s2) ->
    exists steps lbcalls,
      calls s1 = (calls s ++ grow_trace g l steps ++ lbcalls)%list /\
      forallb is_reload lbcalls = true /\
      resource_id (self s1)
        = Some (join "," (l ++ map (member_name g) (map fst steps))) /\
      calls s2 =
        (evs ++ map (fun v => EvDestroy v None)
                    (l ++ map (member_name g) (map fst steps)))%list /\
      match r with
      | Return _ => map fst steps = range c k
      | Raise e =>
          exists pre j message,
            steps = (pre ++ [(j, Some message)])%list /\
            Forall (fun st => snd st = None) pre /\
            map fst steps = range c (j + 1) /\
            c <= j < k /\
            e = NestedResourceFailure message
      end.
Proof.
  intros g l c Hname Hk H w evs s2 Hdel.
  destruct (resize_grow k roe s r s1 Hk H)
    as (steps & lbcalls & Hc & Hall & Hself & Hr).
  fold g l c in Hc, Hself, Hr.
  assert (Hsteps : nonempty steps = true /\
            match r with
            | Return _ => map fst steps = range c k
            | Raise e =>
                exists pre j message,
                  steps = (pre ++ [(j, Some message)])%list /\
                  Forall (fun st => snd st = None) pre /\
                  map fst steps = range c (j + 1) /\
                  c <= j < k /\
                  e = NestedResourceFailure message
            end).
  { destruct r as [u|e].
    - destruct Hr as (Hm & _). split; [|exact Hm].
      destruct steps; [|reflexivity]. simpl in Hm.
      rewrite (range_cons c k Hk) in Hm. discriminate.
    - destruct Hr as (_ & _ & pre & x & msg & post & Hrange & Hst & Hnone & He).
      destruct (range_split _ _ _ _ _ Hrange) as (Hpre & Hx & Hlt).
      rewrite length_map in Hpre, Hx, Hlt.
      split; [subst steps; destruct pre; reflexivity|].
      exists pre, x, msg. split; [exact Hst|]. split; [exact Hnone|].
      split; [|split; [lia|exact He]].
      rewrite Hst, map_app, Hpre, <- Hx. simpl.
      rewrite range_snoc by lia. reflexivity. }
  destruct Hsteps as (Hne & Hshape).
  rewrite Hne in Hself. unfold persisted in Hself.
  exists steps, lbcalls. split; [exact Hc|]. split; [exact Hall|].
  split; [rewrite Hself; reflexivity|]. split; [|exact Hshape].
  rewrite (handle_delete_persisted _
             (join "," (l ++ map (member_name g) (map fst steps))))
    in Hdel by (simpl; rewrite Hself; reflexivity).
  rewrite split_join in Hdel.
  - destruct (destroy_each_spec _ _ _ _ Hdel) as (_ & Hcd). exact Hcd.
  - destruct steps as [|st steps']; [discriminate|]. destruct l; discriminate.
  - apply Forall_app. split; [apply read_inst_list_comma_free|].
    apply Forall_forall. intros f Hf. apply in_map_iff in Hf as (x & <- & _).
    apply member_name_comma_free. exact Hname.
Qed.
End MoreFacts3.

Section MoreFacts4.
Context {W : Type} {B : Backend W}.

(** X16: when the initial target of [handle_create] is outside
    [MinSize .. MaxSize], nothing is created and nothing is reported:
    [handle_create] returns normally and the group is left as it was. *)
Theorem handle_create_out_of_bounds_creates_nothing (s : Sys W) :
  let p := properties (self s) in
  resource_id (self s) = None ->
  num_to_create p > MaxSize p \/ num_to_create p < MinSize p ->
  handle_create s = (Return tt, s).
Proof.
  intros p Hrid Hb. unfold handle_create, bind, get_self. cbv beta iota.
  fold p. rewrite adjust_unfold. cbv zeta. fold p.
  destruct (_cooldown_inprogress _ _); [reflexivity|].
  unfold read_inst_list. rewrite Hrid.
  change (new_capacity_for "ExactCapacity" (Z.of_nat (List.length (@nil string)))
            (num_to_create p)) with (num_to_create p).
  destruct (Z.gtb_spec (num_to_create p) (MaxSize p)); [reflexivity|].
  destruct (Z.ltb_spec (num_to_create p) (MinSize p)); [reflexivity|].
  lia.
Qed.
End MoreFacts4.

(** X10: a non-empty list of names free of commas, persisted and read back,
    comes back sorted; the empty list comes back as one empty name. *)
Theorem membership_round_trip (g : Group) (il : list string) :
  (il <> [] -> Forall (fun f => sep_free comma f = true) il ->
   read_inst_list (set_resource_id g (join "," il)) = sorted il) /\
  (il = [] -> read_inst_list (set_resource_id g (join "," il)) = [""]).
Proof.
  split.
  - apply read_back.
  - intros ->. reflexivity.
Qed.

(** ** The further properties at concrete groups *)

Lemma handle_delete_destroys_in_persisted_order_witness :
  let s := boot unsorted_group (mkTestWorld 0 [] ["g-0"]) in
  let s' := snd (handle_delete s) in
  self s' = self s /\
  exists pre v message post,
    split comma "g-2,g-0,g-1" = (pre ++ v :: post)%list /\
    NestedResourceFailure "failed: g-0" = NestedResourceFailure message /\
    calls s' = (calls s ++ map (fun v => EvDestroy v None) pre
                ++ [EvDestroy v (Some message)])%list.
Proof.
  intros s s'.
  apply (handle_delete_destroys_in_persisted_order s
           (Raise (NestedResourceFailure "failed: g-0")) s').
  vm_compute. reflexivity.
Defined.

Lemma handle_delete_after_grow_witness :
  let s := boot (fresh_group "g" demo_properties) (mkTestWorld 0 ["g-1"] []) in
  let s1 := snd (resize 3 true s) in
  let s2 := snd (handle_delete (mkSys (self s1) (quiet_world 1) [])) in
  exists steps lbcalls,
    calls s1 = ([] ++ grow_trace "g" [] steps ++ lbcalls)%list /\
    forallb is_reload lbcalls = true /\
    resource_id (self s1)
      = Some (join "," ([] ++ map (member_name "g") (map fst steps))) /\
    calls s2 =
      ([] ++ map (fun v => EvDestroy v None)
                 ([] ++ map (member_name "g") (map fst steps)))%list /\
    exists pre j message,
      steps = (pre ++ [(j, Some message)])%list /\
      Forall (fun st => snd st = None) pre /\
      map fst steps = range 0 (j + 1) /\
      0 <= j < 3 /\
      NestedResourceFailure "failed: g-1" = NestedResourceFailure message.
Proof.
  intros s s1 s2.
  assert (Hk : 0 < 3) by lia.
  assert (Hrun : resize 3 true s
                 = (Raise (NestedResourceFailure "failed: g-1"), s1))
    by (vm_compute; reflexivity).
  assert (Hdel : handle_delete (mkSys (self s1) (quiet_world 1) [])
                 = (Return tt, s2))
    by (vm_compute; reflexivity).
  exact (handle_delete_after_grow 3 true s _ s1 eq_refl Hk Hrun
           (quiet_world 1) [] s2 Hdel).
Defined.

Lemma instance_group_create_records_prefix_witness :
  let s := boot (fresh_group "g" demo_properties) (quiet_world 0) in
  let s' := snd (instance_group_handle_create 2 s) in
  exists m,
    1 <= m <= 2 /\
    resource_id (self s')
      = Some (join "," (map (member_name "g") (range 0 m))) /\
    (forall u, Return tt = Return u -> m = 2) /\
    (forall e, @Return unit tt = Raise e ->
       exists message, e = NestedResourceFailure message).
Proof.
  intros s s'.
  apply (instance_group_create_records_prefix 2 s (Return tt) s').
  - reflexivity.
  - lia.
  - vm_compute. reflexivity.
Defined.

Lemma resize_grow_swallows_create_failures_witness :
  let s := boot (fresh_group "g" demo_properties)
                (mkTestWorld 0 ["g-0"; "g-1"] []) in
  exists s' steps lbcalls,
    resize 2 false s = (Return tt, s') /\
    self s' = set_resource_id (self s)
                (join "," ([] ++ map (member_name "g") (range 0 2))) /\
    map fst steps = range 0 2 /\
    calls s' = ([] ++ grow_trace "g" [] steps ++ lbcalls)%list /\
    forallb is_reload lbcalls = true.
Proof.
  intros s. apply (resize_grow_swallows_create_failures s 2).
  vm_compute. reflexivity.
Defined.

Lemma resize_reaches_capacity_witness :
  let s := boot (three_members demo_properties []) (quiet_world 0) in
  Z.of_nat (List.length (read_inst_list (self (snd (resize 5 false s))))) = 5.
Proof.
  intros s.
  apply (resize_reaches_capacity 5 false s (snd (resize 5 false s))).
  - reflexivity.
  - lia.
  - vm_compute. reflexivity.
Defined.

Lemma resize_negative_target_witness :
  let s := boot (three_members demo_properties []) (quiet_world 0) in
  exists s',
    resize (-1) false s = (Return tt, s') /\
    self s' = set_resource_id (self s)
                (join "," (firstn (Z.to_nat (3 + -1)) (read_inst_list (self s)))).
Proof.
  intros s. apply (resize_negative_target s (-1) false).
  - lia.
  - vm_compute. discriminate.
Defined.

Lemma resize_zero_then_one_witness :
  let s := boot (three_members demo_properties []) (quiet_world 0) in
  exists s1,
    resize 0 false s = (Return tt, s1) /\
    resource_id (self s1) = Some "" /\
    read_inst_list (self s1) = [""] /\
    forall roe' (w : TestWorld) evs,
      resize 1 roe' (mkSys (self s1) w evs)
      = (Return tt, mkSys (self s1) w evs).
Proof.
  intros s. apply (resize_zero_then_one s false).
  vm_compute. discriminate.
Defined.

Lemma resize_reloads_once_per_load_balancer_witness :
  let s := boot (three_members balanced_properties []) (quiet_world 0) in
  let s1 := snd (shrink ["g-2"] ["g-0"; "g-1"; "g-2"] s) in
  (exists loopcalls,
     forallb (fun e => negb (is_reload e)) loopcalls = true /\
     calls s1 = (calls s ++ loopcalls)%list) /\
  ["g-0"; "g-1"] = firstn (kept_count 2 (read_inst_list (self s)))
                          (read_inst_list (self s)) /\
  resize 2 false s =
  (Return tt,
   mkSys (self s1)
         (fold_left
            (fun w lb =>
               lb_reload lb
                 (map (fun n => inst_FnGetRefId n (world s1)) ["g-0"; "g-1"]) w)
            ["lb-a"; "lb-b"] (world s1))
         (calls s1
          ++ map (fun lb =>
                    EvReload lb
                      (map (fun n => inst_FnGetRefId n (world s1))
                           ["g-0"; "g-1"]))
                 ["lb-a"; "lb-b"])).
Proof.
  intros s s1.
  assert (Hne : 2 <> 3) by lia.
  exact (proj2 (resize_reloads_once_per_load_balancer 2 false s) Hne).
Defined.

Lemma resize_keeps_indices_contiguous_witness :
  let s := boot (three_members demo_properties []) (quiet_world 0) in
  let s' := snd (resize 7 false s) in
  exists m,
    1 <= m <= 10 /\
    holds_indices (self s') m /\
    read_inst_list (self s') = map (member_name "g") (range 0 m) /\
    (forall u, Return tt = Return u -> m = 7).
Proof.
  intros s s'.
  apply (resize_keeps_indices_contiguous 3 7 false s (Return tt) s').
  - reflexivity.
  - lia.
  - lia.
  - reflexivity.
  - vm_compute. reflexivity.
Defined.

Lemma membership_round_trip_witness :
  read_inst_list
    (set_resource_id (fresh_group "g" demo_properties)
       (join "," ["g-1"; "g-0"]))
  = sorted ["g-1"; "g-0"] /\
  read_inst_list
    (set_resource_id (fresh_group "g" demo_properties) (join "," []))
  = [""].
Proof.
  split.
  - apply (proj1 (membership_round_trip _ ["g-1"; "g-0"])).
    + discriminate.
    + repeat constructor.
  - apply (proj2 (membership_round_trip _ [])). reflexivity.
Defined.

Lemma adjust_keeps_bounds_witness :
  let s := boot (three_members demo_properties []) (quiet_world 0) in
  let s' := snd (adjust 50 "PercentChangeInCapacity" false s) in
  1 <= Z.of_nat (List.length (read_inst_list (self s'))) <= 5.
Proof.
  intros s s'.
  apply (adjust_keeps_bounds 50 "PercentChangeInCapacity" false s (Return tt) s').
  - reflexivity.
  - simpl. lia.
  - vm_compute. split; discriminate.
  - vm_compute. reflexivity.
Defined.

Lemma adjust_unthrottled_without_cooldown_witness :
  let s := boot (three_members (mkProperties (Some (-30)) 1 5 None [])
                               [(100, "ChangeInCapacity : 1")])
                (quiet_world 101) in
  adjust 1 "ChangeInCapacity" false s
  = adjust_unthrottled 1 "ChangeInCapacity" false s.
Proof.
  intros s. apply adjust_unthrottled_without_cooldown.
  right. right. exists (-30). split; [reflexivity|lia].
Defined.

Lemma adjust_then_suppressed_witness :
  let s := boot (three_members (mkProperties (Some 60) 1 5 None []) [])
                (quiet_world 100) in
  let s1 := snd (adjust 1 "ChangeInCapacity" false s) in
  metadata (self s1) = [(100, "ChangeInCapacity" ++ " : " ++ fmt_d 1)] /\
  forall a' ty' roe' (w : TestWorld) evs,
    100 <= utcnow w ->
    utcnow w - 100 < 60 ->
    adjust a' ty' roe' (mkSys (self s1) w evs)
    = (Return tt, mkSys (self s1) w evs).
Proof.
  intros s s1.
  assert (Hb : 1 <= 4 <= 5) by lia.
  assert (Hne : 4 <> 3) by lia.
  assert (Hrun : adjust 1 "ChangeInCapacity" false s = (Return tt, s1))
    by (vm_compute; reflexivity).
  exact (adjust_then_suppressed 1 "ChangeInCapacity" false s s1
           eq_refl Hb Hne Hrun).
Defined.

Lemma percent_increase_below_one_member_is_dropped_witness :
  let s := boot (three_members demo_properties []) (quiet_world 0) in
  adjust 33 "PercentChangeInCapacity" false s = (Return tt, s).
Proof.
  intros s. apply percent_increase_below_one_member_is_dropped.
  vm_compute. split; [discriminate|reflexivity].
Defined.

Lemma percent_decrease_removes_a_member_witness :
  new_capacity_for "PercentChangeInCapacity" 1 (-1) <= 1 - 1 /\
  (-100 <= -1 -> 0 <= new_capacity_for "PercentChangeInCapacity" 1 (-1)).
Proof.
  apply (percent_decrease_removes_a_member 1 (-1)); lia.
Defined.

Lemma handle_create_out_of_bounds_creates_nothing_witness :
  let s := boot (fresh_group "g" (mkProperties None 1 5 (Some 6) []))
                (quiet_world 0) in
  handle_create s = (Return tt, s).
Proof.
  intros s. apply handle_create_out_of_bounds_creates_nothing.
  - reflexivity.
  - left. vm_compute. reflexivity.
Defined.

Lemma alarm_then_suppressed_witness :
  let group := mkGroup "grp" demo_properties (Some "grp-0") [] in
  let throttled := mkPolicy "pol" "grp" 3 "ExactCapacity" (Some 60) [] in
  let st := mkStack throttled [("grp", group)] (quiet_world 100) [] in
  let st1 := snd (alarm st) in
  fst (alarm st) = AlarmReturn /\
  policy_metadata (policy st1)
    = [(utcnow (stack_world st1), "ExactCapacity" ++ " : " ++ fmt_d 3)] /\
  forall rs (w : TestWorld) evs,
    utcnow (stack_world st1) <= utcnow w ->
    utcnow w - utcnow (stack_world st1)
      < cooldown_seconds (properties (mixin_self throttled)) ->
    alarm (mkStack (policy st1) rs w evs)
    = (AlarmReturn, mkStack (policy st1) rs w evs).
Proof.
  intros group throttled st st1.
  assert (Hrun : alarm st = (fst (alarm st), st1)) by (vm_compute; reflexivity).
  exact (alarm_then_suppressed st group (fst (alarm st)) st1
           eq_refl eq_refl Hrun).
Defined.

Lemma alarm_stamps_policy_witness :
  let group := mkGroup "grp" (mkProperties None 1 2 None []) (Some "grp-0") [] in
  let st := mkStack demo_policy [("grp", group)] (quiet_world 7) [] in
  let s := mkSys group (quiet_world 7) [] in
  exists s1,
    adjust 3 "ExactCapacity" false s = (Return tt, s1) /\
    alarm st =
      (AlarmReturn,
       mkStack
         (set_policy_metadata demo_policy
            [(utcnow (world s1), "ExactCapacity" ++ " : " ++ fmt_d 3)])
         (store_group [("grp", group)] "grp" (self s1))
         (world s1) (calls s1)) /\
    (_cooldown_inprogress group (quiet_world 7) = true \/
     3 > 2 \/ 3 < 1 \/ 3 = 1 ->
     s1 = s).
Proof.
  intros group st s.
  apply (alarm_stamps_policy st group); reflexivity.
Defined.

(** The scenario of the spec: a group at capacity 1 with MaxSize 5 and a
    policy for an exact capacity of 3. *)
Example policy_exact_capacity :
  let group := mkGroup "grp" demo_properties (Some "grp-0") [] in
  let st := mkStack demo_policy [("grp", group)] (quiet_world 7) [] in
  fst (alarm st) = AlarmReturn /\
  option_map resource_id (lookup_group (resources (snd (alarm st))) "grp")
    = Some (Some "grp-0,grp-1,grp-2") /\
  policy_metadata (policy (snd (alarm st))) = [(7, "ExactCapacity : 3")].
Proof. vm_compute. repeat split; reflexivity. Qed.
